(** * Customer-support bot: the chat page and the admin dashboard

    A shallow embedding of the two React pages of the front end
    (the chat page [ChatInterface] and the admin page [AdminDashboard])
    and the properties of their state machines, their request shapes,
    the dashboard's filters and statistics, and the bold-marker parser
    [MarkdownText.renderText] that both pages share. *)

From Stdlib Require Import List NArith ZArith String Ascii Bool Lia DecimalString.
From Stdlib Require PrimFloat SpecFloat FloatOps Uint63.
From Equations Require Import Equations.
From stdpp Require Import base list.
Import ListNotations.

(** ** JavaScript strings

    A JavaScript string is a sequence of UTF-16 code units; the regular
    expression of [renderText] (no [u] flag), [trim], [includes] and
    [substring] all work on code units. *)

Module JS.

Definition char16 := N.
Definition jsstring := list char16.

(** A string literal of the source (all of them are ASCII). *)
Definition lit (s : string) : jsstring :=
  List.map N_of_ascii (list_ascii_of_string s).

(** [WhiteSpace] and [LineTerminator] of ECMAScript: what [trim] strips. *)
Definition isWhiteSpace (c : char16) : bool :=
  ((9 <=? c) && (c <=? 13) || (c =? 32) || (c =? 160) || (c =? 5760)
   || (8192 <=? c) && (c <=? 8202)
   || (c =? 8232) || (c =? 8233) || (c =? 8239) || (c =? 8287)
   || (c =? 12288) || (c =? 65279))%N.

Fixpoint trimStart (s : jsstring) : jsstring :=
  match s with
  | c :: t => if isWhiteSpace c then trimStart t else s
  | [] => []
  end.

Definition trimEnd (s : jsstring) : jsstring := rev (trimStart (rev s)).

Definition trim (s : jsstring) : jsstring := trimEnd (trimStart s).

(** Truthiness of a string: only the empty string is falsy. *)
Definition truthy (s : jsstring) : bool :=
  match s with [] => false | _ :: _ => true end.

(** Truthiness of [string | null]. *)
Definition truthy_opt (o : option jsstring) : bool :=
  match o with Some s => truthy s | None => false end.

(** [a || b] on strings. *)
Definition or_else (a : option jsstring) (b : jsstring) : jsstring :=
  match a with
  | Some s => if truthy s then s else b
  | None => b
  end.

Definition eqb (a b : jsstring) : bool := bool_decide (a = b).

(** [s.startsWith(t)] and [s.includes(t)]. *)
Fixpoint startsWith (s t : jsstring) : bool :=
  match t, s with
  | [], _ => true
  | _ :: _, [] => false
  | b :: t', a :: s' => (a =? b)%N && startsWith s' t'
  end.

Fixpoint includes (s t : jsstring) : bool :=
  startsWith s t ||
  match s with
  | [] => false
  | _ :: s' => includes s' t
  end.

(** [s.substring(i, j)] for [i <= j] (the only use in the source). *)
Definition substring (s : jsstring) (i j : nat) : jsstring :=
  take (j - i) (drop i s).

(** [`${n}`] for a non-negative integer. *)
Definition Number_toString (n : nat) : jsstring :=
  lit (NilEmpty.string_of_uint (Nat.to_uint n)).

(** A JavaScript number is an IEEE 754 binary64 value. *)
Definition number := PrimFloat.float.

(** The number an integer literal of less than 2^53 in magnitude
    denotes. *)
Definition Number_of_Z (k : Z) : number :=
  if (k <? 0)%Z
  then PrimFloat.opp (PrimFloat.of_uint63 (Uint63.of_Z (- k)))
  else PrimFloat.of_uint63 (Uint63.of_Z k).

(** [Math.round]: the integer nearest to [x], the upper one of two
    equally near; a number that is an integer, a zero, an infinity or
    NaN is returned as it is, and a result of zero keeps the sign of
    [x].  The value of a finite [x] is [m * 2^e], taken exactly. *)
Definition Math_round (x : number) : number :=
  match FloatOps.Prim2SF x with
  | SpecFloat.S754_finite s m e =>
    if (0 <=? e)%Z then x
    else
      let v := if s then Z.neg m else Z.pos m in
      let d := (2 ^ (- e))%Z in
      let k := ((2 * v + d) / (2 * d))%Z in
      if (k =? 0)%Z
      then (if s then PrimFloat.opp PrimFloat.zero else PrimFloat.zero)
      else Number_of_Z k
  | _ => x
  end.

(** What a [catch] clause receives: an [Error] with its message, or
    any other value. *)
Inductive Thrown :=
| ThrownError (message : jsstring)
| ThrownOther.

(** The outcome of awaiting a promise. *)
Inductive Settled (A : Type) :=
| rejects (e : Thrown)
| resolves (v : A).
Arguments rejects {A} e.
Arguments resolves {A} v.

End JS.

Import JS.

(** ** HTTP requests issued through [fetch] *)

Module Http.

Inductive Method := GET | POST.

(** The JSON object [requestBody] of the chat page: [session_id] is
    [None] when the key is absent. *)
Record RequestBody := {
  user_message : jsstring;
  session_id : option jsstring
}.

Record Request := {
  method : Method;
  url : jsstring;
  headers : list (jsstring * jsstring);
  body : option RequestBody
}.

Definition API_BASE_URL : jsstring := lit "http://localhost:8000".

(** [response.ok]. *)
Definition ok (status : nat) : bool := (200 <=? status) && (status <=? 299).

End Http.

(** ** The chat page ([ChatInterface]) *)

Module Chat.

Inductive Role := user | assistant.

(** [timestamp] is the value of [new Date()], in milliseconds. *)
Record Message := {
  role : Role;
  content : jsstring;
  timestamp : nat
}.

Inductive Status := active | escalated.

Record ChatResponse := {
  session_id : jsstring;
  response : jsstring;
  is_escalated : bool;
  status : Status;
  summary : option jsstring
}.

(** The JSON value that [response.json()] resolves to.  The page reads
    it at type [ChatResponse] on the OK path (an unchecked annotation)
    and reads its [detail] field on the 500 path. *)
Record JsonBody := {
  data : ChatResponse;
  detail : option jsstring
}.

Record Response := {
  resp_status : nat;
  resp_json : Settled JsonBody
}.

(** The component's state, one field per [useState]. *)
Record State := {
  messages : list Message;
  inputMessage : jsstring;
  sessionId : option jsstring;
  isLoading : bool;
  error : option jsstring;
  isEscalated : bool
}.

Definition initial : State :=
  {| messages := []; inputMessage := []; sessionId := None;
     isLoading := false; error := None; isEscalated := false |}.

(** *** [sendMessage], up to [await fetch(...)] *)

(** The guard of the first line. *)
Definition rejected (st : State) : bool :=
  negb (truthy (trim (inputMessage st))) || isLoading st.

(** [requestBody], with [session_id] only [if (sessionId)]. *)
Definition requestBody (userMessage : jsstring) (sessionId : option jsstring)
  : Http.RequestBody :=
  {| Http.user_message := userMessage;
     Http.session_id := if truthy_opt sessionId then sessionId else None |}.

Definition chatRequest (userMessage : jsstring) (sessionId : option jsstring)
  : Http.Request :=
  {| Http.method := Http.POST;
     Http.url := Http.API_BASE_URL ++ lit "/api/chat";
     Http.headers := [(lit "Content-Type", lit "application/json")];
     Http.body := Some (requestBody userMessage sessionId) |}.

(** The synchronous part: [None] when the guard returns, otherwise the
    state after the setters and the request handed to [fetch]. *)
Definition sendMessage_start (now : nat) (st : State)
  : option (State * Http.Request) :=
  if rejected st then None
  else
    let userMessage := trim (inputMessage st) in
    let newUserMessage :=
      {| role := user; content := userMessage; timestamp := now |} in
    Some ({| messages := messages st ++ [newUserMessage];
             inputMessage := [];
             sessionId := sessionId st;
             isLoading := true;
             error := None;
             isEscalated := isEscalated st |},
          chatRequest userMessage (sessionId st)).

(** *** [sendMessage], after the [await] *)

(** The rest of the [try] block up to [const data]: the value of
    [data], or what is thrown. *)
Definition awaited (out : Settled Response) : Settled ChatResponse :=
  match out with
  | rejects e => rejects e
  | resolves r =>
    if negb (Http.ok (resp_status r)) then
      if resp_status r =? 404 then
        rejects (ThrownError
                   (lit "Session not found. Starting a new conversation."))
      else if resp_status r =? 500 then
        match resp_json r with
        | rejects e => rejects e
        | resolves errorData =>
          rejects (ThrownError
                     (or_else (detail errorData) (lit "Server error occurred")))
        end
      else
        rejects (ThrownError (lit "Request failed with status "
                              ++ Number_toString (resp_status r)))
    else
      match resp_json r with
      | rejects e => rejects e
      | resolves j => resolves (data j)
      end
  end.

(** [err instanceof Error ? err.message : 'Failed to send message']. *)
Definition errorMessage (err : Thrown) : jsstring :=
  match err with
  | ThrownError m => m
  | ThrownOther => lit "Failed to send message"
  end.

Definition errorContent (err : Thrown) : jsstring :=
  lit "Sorry, I encountered an error: " ++ errorMessage err
  ++ lit ". Please try again.".

(** The continuation after the [await].  [captured] is the [sessionId]
    of the render in which [sendMessage] was called (the closure does
    not see later updates); the setters act on the current state. *)
Definition sendMessage_settle (captured : option jsstring) (now : nat)
    (out : Settled Response) (st : State) : State :=
  match awaited out with
  | resolves d =>
    let botMessage :=
      {| role := assistant; content := response d; timestamp := now |} in
    {| messages := messages st ++ [botMessage];
       inputMessage := inputMessage st;
       sessionId :=
         if negb (truthy_opt captured) && truthy (session_id d)
         then Some (session_id d) else sessionId st;
       isLoading := false;
       error := error st;
       isEscalated := if is_escalated d then true else isEscalated st |}
  | rejects err =>
    let errorBotMessage :=
      {| role := assistant; content := errorContent err; timestamp := now |} in
    {| messages := messages st ++ [errorBotMessage];
       inputMessage := inputMessage st;
       sessionId := sessionId st;
       isLoading := false;
       error := Some (errorMessage err);
       isEscalated := isEscalated st |}
  end.

Definition resetChat (st : State) : State :=
  {| messages := [];
     inputMessage := [];
     sessionId := None;
     isLoading := isLoading st;
     error := None;
     isEscalated := false |}.

Definition setInputMessage (s : jsstring) (st : State) : State :=
  {| messages := messages st;
     inputMessage := s;
     sessionId := sessionId st;
     isLoading := isLoading st;
     error := error st;
     isEscalated := isEscalated st |}.

(** *** The page as a transition system

    [pending] holds the captured [sessionId] of the call whose [fetch]
    has not settled yet. *)
Record Page := {
  state : State;
  pending : option (option jsstring)
}.

Inductive Event :=
| ev_input (s : jsstring)                      (* typing, or a suggestion *)
| ev_send (now : nat)                          (* the button or Enter *)
| ev_settle (out : Settled Response) (now : nat) (* the fetch settles *)
| ev_reset.                                    (* New Chat *)

Definition step (p : Page) (e : Event) : Page * list Http.Request :=
  match e with
  | ev_input s =>
    ({| state := setInputMessage s (state p); pending := pending p |}, [])
  | ev_send now =>
    match sendMessage_start now (state p) with
    | None => (p, [])
    | Some (st, req) =>
      ({| state := st; pending := Some (sessionId (state p)) |}, [req])
    end
  | ev_settle out now =>
    match pending p with
    | None => (p, [])
    | Some captured =>
      ({| state := sendMessage_settle captured now out (state p);
          pending := None |}, [])
    end
  | ev_reset =>
    ({| state := resetChat (state p); pending := pending p |}, [])
  end.

Fixpoint run (p : Page) (es : list Event) : Page * list Http.Request :=
  match es with
  | [] => (p, [])
  | e :: es' =>
    let '(p1, r1) := step p e in
    let '(p2, r2) := run p1 es' in
    (p2, r1 ++ r2)
  end.

Definition start : Page := {| state := initial; pending := None |}.

(** One completed call of [sendMessage] on the text [s]: the input is
    set, the call is made, and its [fetch] settles. *)
Record Turn := {
  typed : jsstring;
  sent_at : nat;
  outcome : Settled Response;
  settled_at : nat
}.

Definition turn_events (t : Turn) : list Event :=
  [ev_input (typed t); ev_send (sent_at t); ev_settle (outcome t) (settled_at t)].

End Chat.

(** ** [MarkdownText.renderText] (the same text in both pages) *)

Module Markdown.

Definition isStar (c : char16) : bool := (c =? 42)%N.

(** [[^*]+], greedy: the longest run without a star, and what follows. *)
Fixpoint span_not_star (s : jsstring) : jsstring * jsstring :=
  match s with
  | [] => ([], [])
  | c :: t =>
    if isStar c then ([], s)
    else let '(run, rest) := span_not_star t in (c :: run, rest)
  end.

(** A successful [boldRegex.exec]: [match.index], [match[0]],
    [match[1]], [match[2]] ([None] is [undefined]). *)
Record Match := {
  index : nat;
  whole : jsstring;
  group1 : option jsstring;
  group2 : option jsstring
}.

(** The first alternative, [\*\*([^*]+)\*\*], anchored at the head of
    [s].  The class is followed by a literal star, so only its longest
    run can be followed by the closing marker: backtracking into the
    run never helps. *)
Definition alt1 (i : nat) (s : jsstring) : option Match :=
  match s with
  | c1 :: c2 :: t =>
    if isStar c1 && isStar c2 then
      match span_not_star t with
      | (run, d1 :: d2 :: _) =>
        if truthy run && isStar d1 && isStar d2 then
          Some {| index := i; whole := c1 :: c2 :: run ++ [d1; d2];
                  group1 := Some run; group2 := None |}
        else None
      | _ => None
      end
    else None
  | _ => None
  end.

(** The second alternative, [\*([^*]+)\*]. *)
Definition alt2 (i : nat) (s : jsstring) : option Match :=
  match s with
  | c1 :: t =>
    if isStar c1 then
      match span_not_star t with
      | (run, d1 :: _) =>
        if truthy run && isStar d1 then
          Some {| index := i; whole := c1 :: run ++ [d1];
                  group1 := None; group2 := Some run |}
        else None
      | _ => None
      end
    else None
  | _ => None
  end.

Definition match_here (i : nat) (s : jsstring) : option Match :=
  match alt1 i s with
  | Some m => Some m
  | None => alt2 i s
  end.

(** The leftmost position from [i] on at which the pattern matches. *)
Fixpoint search (i : nat) (s : jsstring) : option Match :=
  match match_here i s with
  | Some m => Some m
  | None =>
    match s with
    | [] => None
    | _ :: s' => search (S i) s'
    end
  end.

(** [boldRegex.exec(input)] with the global flag, from [lastIndex]. *)
Definition exec (input : jsstring) (lastIndex : nat) : option Match :=
  if length input <? lastIndex then None
  else search lastIndex (drop lastIndex input).

(** The React nodes pushed on [parts]. *)
Inductive Part :=
| text (s : jsstring)
| strong (key : nat) (children : option jsstring).

(** [match[1] || match[2]]. *)
Definition boldText (m : Match) : option jsstring :=
  if truthy_opt (group1 m) then group1 m else group2 m.

Lemma span_not_star_app (s : jsstring) :
  fst (span_not_star s) ++ snd (span_not_star s) = s.
Proof.
  induction s as [|c t IH]; simpl; [reflexivity|].
  destruct (isStar c); [reflexivity|].
  destruct (span_not_star t) as [run rest]; simpl in *. now rewrite IH.
Qed.

Lemma alt1_whole (i : nat) (s : jsstring) (m : Match) :
  alt1 i s = Some m ->
  index m = i /\ whole m <> [] /\ exists rest, s = whole m ++ rest.
Proof.
  unfold alt1. intros H.
  repeat match type of H with
  | context [match ?x with _ => _ end] =>
      let E := fresh "E" in destruct x eqn:E; try discriminate
  end.
  injection H as <-; simpl; (split; [reflexivity|]); (split; [discriminate|]).
  match goal with
  | E : span_not_star ?t = _ |- _ =>
      pose proof (span_not_star_app t) as Happ; rewrite E in Happ; simpl in Happ
  end.
  subst. eexists. simpl. rewrite <- ?app_assoc. simpl. reflexivity.
Qed.

Lemma alt2_whole (i : nat) (s : jsstring) (m : Match) :
  alt2 i s = Some m ->
  index m = i /\ whole m <> [] /\ exists rest, s = whole m ++ rest.
Proof.
  unfold alt2. intros H.
  repeat match type of H with
  | context [match ?x with _ => _ end] =>
      let E := fresh "E" in destruct x eqn:E; try discriminate
  end.
  injection H as <-; simpl; (split; [reflexivity|]); (split; [discriminate|]).
  match goal with
  | E : span_not_star ?t = _ |- _ =>
      pose proof (span_not_star_app t) as Happ; rewrite E in Happ; simpl in Happ
  end.
  subst. eexists. simpl. rewrite <- ?app_assoc. simpl. reflexivity.
Qed.

Lemma match_here_whole (i : nat) (s : jsstring) (m : Match) :
  match_here i s = Some m ->
  index m = i /\ whole m <> [] /\ exists rest, s = whole m ++ rest.
Proof.
  unfold match_here. destruct (alt1 i s) eqn:E.
  - intros [= <-]. now apply alt1_whole.
  - apply alt2_whole.
Qed.

Lemma match_here_bounds (i : nat) (s : jsstring) (m : Match) :
  match_here i s = Some m ->
  index m = i /\ 0 < length (whole m) /\ length (whole m) <= length s.
Proof.
  intros H. apply match_here_whole in H as (Hi & Hne & rest & Hs).
  apply (f_equal (@length _)) in Hs. rewrite length_app in Hs.
  destruct (whole m); [congruence|]. simpl in *. lia.
Qed.

Lemma search_bounds (s : jsstring) : forall (i : nat) (m : Match),
  search i s = Some m ->
  i <= index m /\ 0 < length (whole m)
  /\ index m + length (whole m) <= i + length s.
Proof.
  induction s as [|c s IH]; intros i m; simpl.
  - discriminate.
  - destruct (match_here i (c :: s)) eqn:E.
    + intros [= ->]. apply match_here_bounds in E. simpl in E. lia.
    + intros H. apply IH in H. lia.
Qed.

Lemma exec_bounds (input : jsstring) (lastIndex : nat) (m : Match) :
  exec input lastIndex = Some m ->
  lastIndex <= index m /\ 0 < length (whole m)
  /\ index m + length (whole m) <= length input.
Proof.
  unfold exec. destruct (Nat.ltb_spec (length input) lastIndex); [discriminate|].
  intros Hs. apply search_bounds in Hs. rewrite length_drop in Hs. lia.
Qed.

(** Keeps the equation of a scrutinee for the termination proof. *)
Definition inspect {A : Type} (a : A) : {b : A | a = b} := exist _ a eq_refl.

(** The [while] loop.  The regular expression's own [lastIndex] and the
    local variable [lastIndex] agree at every test of the loop, so one
    counter stands for both.  Returns [parts] and [lastIndex] at exit. *)
Equations? renderLoop (input : jsstring) (lastIndex : nat) (parts : list Part)
  : list Part * nat by wf (length input - lastIndex) lt :=
  renderLoop input lastIndex parts with inspect (exec input lastIndex) := {
    | exist _ (Some m) _ =>
      renderLoop input (index m + length (whole m))
        ((if lastIndex <? index m
          then parts ++ [text (substring input lastIndex (index m))]
          else parts)
         ++ [strong (index m) (boldText m)])
    | exist _ None _ => (parts, lastIndex) }.
Proof. apply exec_bounds in e. lia. Qed.

(** What [renderText] returns: the array [parts], or [input] itself. *)
Inductive Rendered :=
| nodes (parts : list Part)
| plain (input : jsstring).

Definition renderText (input : jsstring) : Rendered :=
  let '(parts, lastIndex) := renderLoop input 0 [] in
  let parts :=
    if lastIndex <? length input
    then parts ++ [text (drop lastIndex input)]
    else parts in
  if 0 <? length parts then nodes parts else plain input.

(** The characters React shows for a node. *)
Definition part_text (p : Part) : jsstring :=
  match p with
  | text s => s
  | strong _ (Some s) => s
  | strong _ None => []
  end.

Definition rendered_text (r : Rendered) : jsstring :=
  match r with
  | nodes parts => concat (List.map part_text parts)
  | plain input => input
  end.

End Markdown.

(** ** The admin dashboard ([AdminDashboard]) *)

Module Manage.

Record Message := {
  role : jsstring;
  content : jsstring;
  timestamp : option jsstring
}.

(** A row of the list as it arrives in the JSON: [status] is the string
    the page compares with ['active'] and ['escalated']; [summary] is
    [None] when absent or [null]. *)
Record Conversation := {
  session_id : jsstring;
  status : jsstring;
  created_at : jsstring;
  updated_at : jsstring;
  message_count : number;
  is_escalated : bool;
  summary : option jsstring
}.

Record ConversationDetail := {
  detail_session_id : jsstring;
  detail_status : jsstring;
  detail_created_at : jsstring;
  detail_updated_at : jsstring;
  history : list Message
}.

(** The values of the status [select]. *)
Inductive StatusFilter := all | active | escalated.

Definition filter_value (f : StatusFilter) : jsstring :=
  match f with
  | all => lit "all"
  | active => lit "active"
  | escalated => lit "escalated"
  end.

Definition StatusFilter_eqb (f g : StatusFilter) : bool :=
  match f, g with
  | all, all | active, active | escalated, escalated => true
  | _, _ => false
  end.

Record State := {
  conversations : list Conversation;
  filteredConversations : list Conversation;
  selectedConversation : option ConversationDetail;
  isLoading : bool;
  error : option jsstring;
  searchTerm : jsstring;
  statusFilter : StatusFilter;
  showModal : bool
}.

Definition listRequest : Http.Request :=
  {| Http.method := Http.GET;
     Http.url := Http.API_BASE_URL ++ lit "/api/conversations";
     Http.headers := [];
     Http.body := None |}.

Definition detailRequest (sessionId : jsstring) : Http.Request :=
  {| Http.method := Http.GET;
     Http.url := Http.API_BASE_URL ++ lit "/api/conversations/" ++ sessionId;
     Http.headers := [];
     Http.body := None |}.

(** What [fetch] settles to: the status and the parsed body. *)
Record Response (A : Type) := {
  resp_status : nat;
  resp_json : Settled A
}.
Arguments resp_status {A} r.
Arguments resp_json {A} r.

(** The [try] block after the [await]: the parsed [data], or what is
    thrown. *)
Definition awaited {A : Type} (what : jsstring) (out : Settled (Response A))
  : Settled A :=
  match out with
  | rejects e => rejects e
  | resolves r =>
    if negb (Http.ok (resp_status r)) then
      rejects (ThrownError (what ++ Number_toString (resp_status r)))
    else resp_json r
  end.

Definition errorMessage (fallback : jsstring) (err : Thrown) : jsstring :=
  match err with
  | ThrownError m => m
  | ThrownOther => fallback
  end.

(** [Math.round(sum / n)] in binary64 arithmetic, [n] being the length
    of an array.  [None] stands for the quotient by zero, which is no
    finite number (NaN or an infinity). *)
Definition Math_round_div (sum : number) (n : nat) : option number :=
  if n =? 0 then None
  else Some (Math_round (PrimFloat.div sum (Number_of_Z (Z.of_nat n)))).

Record Stats := {
  total : nat;
  stat_active : nat;
  stat_escalated : nat;
  avgMessages : option number
}.

Definition stats (conversations : list Conversation) : Stats :=
  {| total := length conversations;
     stat_active :=
       length (List.filter (fun c => JS.eqb (status c) (lit "active"))
                           conversations);
     stat_escalated :=
       length (List.filter (fun c => JS.eqb (status c) (lit "escalated"))
                           conversations);
     avgMessages :=
       if 0 <? length conversations
       then Math_round_div
              (fold_left (fun sum c => PrimFloat.add sum (message_count c))
                         conversations PrimFloat.zero)
              (length conversations)
       else Some PrimFloat.zero |}.

Section Page.

(** [String.prototype.toLowerCase], the Unicode lower-casing of the
    JavaScript engine. *)
Variable toLowerCase : jsstring -> jsstring.

(** The callback of the search filter. *)
Definition matchesSearch (searchTerm : jsstring) (conv : Conversation) : bool :=
  includes (toLowerCase (session_id conv)) (toLowerCase searchTerm)
  || match summary conv with
     | Some s => truthy s && includes (toLowerCase s) (toLowerCase searchTerm)
     | None => false
     end.

(** The body of the filtering effect, up to [setFilteredConversations]. *)
Definition applyFilters (conversations : list Conversation)
    (searchTerm : jsstring) (statusFilter : StatusFilter) : list Conversation :=
  let filtered := conversations in
  let filtered :=
    if negb (StatusFilter_eqb statusFilter all)
    then List.filter
           (fun conv => JS.eqb (status conv) (filter_value statusFilter))
           filtered
    else filtered in
  let filtered :=
    if truthy searchTerm
    then List.filter (matchesSearch searchTerm) filtered
    else filtered in
  filtered.

(** The effect with dependencies [searchTerm, statusFilter,
    conversations]. *)
Definition filterEffect (st : State) : State :=
  {| conversations := conversations st;
     filteredConversations :=
       applyFilters (conversations st) (searchTerm st) (statusFilter st);
     selectedConversation := selectedConversation st;
     isLoading := isLoading st;
     error := error st;
     searchTerm := searchTerm st;
     statusFilter := statusFilter st;
     showModal := showModal st |}.

(** Both fetchers start with [setIsLoading(true); setError(null)]. *)
Definition fetch_start (st : State) : State :=
  {| conversations := conversations st;
     filteredConversations := filteredConversations st;
     selectedConversation := selectedConversation st;
     isLoading := true;
     error := None;
     searchTerm := searchTerm st;
     statusFilter := statusFilter st;
     showModal := showModal st |}.

Definition fetchConversations_start (st : State) : State * Http.Request :=
  (fetch_start st, listRequest).

(** After the [await] of [fetchConversations]; on success both lists
    are set to [data] and, [conversations] being a new array, the
    filtering effect runs after the render. *)
Definition fetchConversations_settle
    (out : Settled (Response (list Conversation))) (st : State) : State :=
  match awaited (lit "Failed to fetch conversations: ") out with
  | resolves data =>
    filterEffect
      {| conversations := data;
         filteredConversations := data;
         selectedConversation := selectedConversation st;
         isLoading := false;
         error := error st;
         searchTerm := searchTerm st;
         statusFilter := statusFilter st;
         showModal := showModal st |}
  | rejects err =>
    {| conversations := conversations st;
       filteredConversations := filteredConversations st;
       selectedConversation := selectedConversation st;
       isLoading := false;
       error := Some (errorMessage (lit "Failed to load conversations") err);
       searchTerm := searchTerm st;
       statusFilter := statusFilter st;
       showModal := showModal st |}
  end.

Definition fetchConversationDetail_start (sessionId : jsstring) (st : State)
  : State * Http.Request :=
  (fetch_start st, detailRequest sessionId).

Definition fetchConversationDetail_settle
    (out : Settled (Response ConversationDetail)) (st : State) : State :=
  match awaited (lit "Failed to fetch conversation details: ") out with
  | resolves data =>
    {| conversations := conversations st;
       filteredConversations := filteredConversations st;
       selectedConversation := Some data;
       isLoading := false;
       error := error st;
       searchTerm := searchTerm st;
       statusFilter := statusFilter st;
       showModal := true |}
  | rejects err =>
    {| conversations := conversations st;
       filteredConversations := filteredConversations st;
       selectedConversation := selectedConversation st;
       isLoading := false;
       error := Some (errorMessage (lit "Failed to load conversation") err);
       searchTerm := searchTerm st;
       statusFilter := statusFilter st;
       showModal := showModal st |}
  end.

(** A setter followed by the effect when the value changed. *)
Definition setSearchTerm (s : jsstring) (st : State) : State :=
  if JS.eqb s (searchTerm st) then st
  else filterEffect
         {| conversations := conversations st;
            filteredConversations := filteredConversations st;
            selectedConversation := selectedConversation st;
            isLoading := isLoading st;
            error := error st;
            searchTerm := s;
            statusFilter := statusFilter st;
            showModal := showModal st |}.

Definition setStatusFilter (f : StatusFilter) (st : State) : State :=
  if StatusFilter_eqb f (statusFilter st) then st
  else filterEffect
         {| conversations := conversations st;
            filteredConversations := filteredConversations st;
            selectedConversation := selectedConversation st;
            isLoading := isLoading st;
            error := error st;
            searchTerm := searchTerm st;
            statusFilter := f;
            showModal := showModal st |}.

Definition closeModal (st : State) : State :=
  {| conversations := conversations st;
     filteredConversations := filteredConversations st;
     selectedConversation := None;
     isLoading := isLoading st;
     error := error st;
     searchTerm := searchTerm st;
     statusFilter := statusFilter st;
     showModal := false |}.

(** The state of the first render. *)
Definition initial : State :=
  {| conversations := [];
     filteredConversations := [];
     selectedConversation := None;
     isLoading := false;
     error := None;
     searchTerm := [];
     statusFilter := all;
     showModal := false |}.

Inductive Event :=
| ev_mount                                     (* the two effects of the first render *)
| ev_refresh                                   (* the Refresh button *)
| ev_view (row : nat)                          (* View, on a listed row *)
| ev_search (s : jsstring)
| ev_status (f : StatusFilter)
| ev_close
| ev_list_settle (out : Settled (Response (list Conversation)))
| ev_detail_settle (out : Settled (Response ConversationDetail)).

(** Refresh is disabled while loading; the rows are rendered unless the
    page shows its loading placeholder.  A settle event may arrive at
    any time: the handlers do not depend on which call it answers. *)
Definition step (st : State) (e : Event) : State * list Http.Request :=
  match e with
  | ev_mount =>
    let '(st1, req) := fetchConversations_start st in (filterEffect st1, [req])
  | ev_refresh =>
    if isLoading st then (st, [])
    else let '(st1, req) := fetchConversations_start st in (st1, [req])
  | ev_view row =>
    if isLoading st && (length (conversations st) =? 0) then (st, [])
    else
      match filteredConversations st !! row with
      | Some conv =>
        let '(st1, req) := fetchConversationDetail_start (session_id conv) st in
        (st1, [req])
      | None => (st, [])
      end
  | ev_search s => (setSearchTerm s st, [])
  | ev_status f => (setStatusFilter f st, [])
  | ev_close => (closeModal st, [])
  | ev_list_settle out => (fetchConversations_settle out st, [])
  | ev_detail_settle out => (fetchConversationDetail_settle out st, [])
  end.

Fixpoint run (st : State) (es : list Event) : State * list Http.Request :=
  match es with
  | [] => (st, [])
  | e :: es' =>
    let '(st1, r1) := step st e in
    let '(st2, r2) := run st1 es' in
    (st2, r1 ++ r2)
  end.

End Page.

(** Lower-casing restricted to the ASCII letters, to run the page on
    ASCII data. *)
Definition asciiLowerCase (s : jsstring) : jsstring :=
  List.map (fun c => if (65 <=? c)%N && (c <=? 90)%N then (c + 32)%N else c) s.

End Manage.

From Stdlib Require Import Sorted.

(** ** The controls of the chat page *)

Module ChatControls.

Import Chat.

(** [disabled] of the Send button and of the text input. *)
Definition sendDisabled (st : State) : bool :=
  isLoading st || negb (truthy (trim (inputMessage st))).

Definition inputDisabled (st : State) : bool := isLoading st.

(** The fields [handleKeyPress] reads of its event. *)
Record KeyboardEvent := {
  key : jsstring;
  shiftKey : bool
}.

(** [handleKeyPress]: [sendMessage] on Enter without Shift. *)
Definition handleKeyPress (e : KeyboardEvent) (now : nat) (p : Page)
  : Page * list Http.Request :=
  if JS.eqb (key e) (lit "Enter") && negb (shiftKey e)
  then step p (ev_send now)
  else (p, []).

End ChatControls.

(** ** The body of [MarkdownText] (the same text in both pages) *)

Module MarkdownLines.

Import Markdown.

(** [text.split('\n')]. *)
Fixpoint split_lines (text : jsstring) : list jsstring :=
  match text with
  | [] => [[]]
  | c :: t =>
    if (c =? 10)%N then [] :: split_lines t
    else
      match split_lines t with
      | line :: lines => (c :: line) :: lines
      | [] => [[c]]
      end
  end.

(** The class [[*-]]. *)
Definition isMarker (c : char16) : bool := (c =? 42)%N || (c =? 45)%N.

(** [\d]. *)
Definition isDigit (c : char16) : bool := (48 <=? c)%N && (c <=? 57)%N.

(** The characters [.] does not match. *)
Definition isLineTerminator (c : char16) : bool :=
  ((c =? 10) || (c =? 13) || (c =? 8232) || (c =? 8233))%N.

(** The longest prefix of characters in a class, and what follows: a
    greedy [c*]. *)
Fixpoint span (p : char16 -> bool) (s : jsstring) : jsstring * jsstring :=
  match s with
  | [] => ([], [])
  | c :: t =>
    if p c then let '(run, rest) := span p t in (c :: run, rest)
    else ([], s)
  end.

(** [line.replace(/^[\s]*[*-][\s]*/, '')].  The class [\s] is the set
    [trim] strips, so [[\s]*] at the head is [trimStart]; a marker is
    not white space, so giving back white space never lets [[*-]]
    match.  Without a match the line is returned as it is. *)
Definition replace_bullet (line : jsstring) : jsstring :=
  match trimStart line with
  | c :: rest => if isMarker c then trimStart rest else line
  | [] => line
  end.

(** [line.match(...)] for the numbered-list pattern (white space, a
    group of digits, a dot, white space, and a group of any characters
    but line terminators): the groups 1 and 2.  A dot is not a digit,
    so only the longest run of digits can be followed by the dot. *)
Definition numberedMatch (line : jsstring) : option (jsstring * jsstring) :=
  let '(digits, rest) := span isDigit (trimStart line) in
  match rest with
  | c :: rest' =>
    if truthy digits && (c =? 46)%N
    then Some (digits,
               fst (span (fun c => negb (isLineTerminator c))
                         (trimStart rest')))
    else None
  | [] => None
  end.

(** The element rendered for a line: a bullet, a numbered item with its
    label, a plain line, or the spacer of an empty line.  The [key] of
    each is its position in the list. *)
Inductive Block :=
| bullet (children : Rendered)
| numbered (label : jsstring) (children : Rendered)
| regular (children : Rendered)
| spacer.

Definition renderLine (line : jsstring) : Block :=
  if startsWith (trim line) (lit "*") || startsWith (trim line) (lit "-")
  then bullet (renderText (replace_bullet line))
  else
    match numberedMatch line with
    | Some (label, body) => numbered label (renderText body)
    | None =>
      if truthy (trim line) then regular (renderText line) else spacer
    end.

Definition MarkdownText (text : jsstring) : list Block :=
  List.map renderLine (split_lines text).

(** The bullet sign of the chat page, and the three characters the
    source of the admin page has in its place. *)
Definition chat_bullet_sign : jsstring := [8226%N].

Definition manage_bullet_sign : jsstring := [226%N; 8364%N; 162%N].

(** The characters a block shows: the sign and the text of a bullet,
    the label, the dot and the text of a numbered item, the text of a
    plain line, nothing for a spacer. *)
Definition block_text (sign : jsstring) (b : Block) : jsstring :=
  match b with
  | bullet r => sign ++ rendered_text r
  | numbered label r => label ++ lit "." ++ rendered_text r
  | regular r => rendered_text r
  | spacer => []
  end.

(** The sign a block puts before its text. *)
Definition block_sign (sign : jsstring) (b : Block) : jsstring :=
  match b with
  | bullet _ => sign
  | _ => []
  end.

End MarkdownLines.

(** * The vocabulary of the properties *)

Section ChatVocabulary.

Import Chat.

(** A fetch outcome on which the [try] block reaches [const data]: the
    fetch resolves, the status is OK, and the body parses. *)
Definition succeeds (out : Settled Response) (d : ChatResponse) : Prop :=
  exists r j, out = resolves r /\ Http.ok (resp_status r) = true
              /\ resp_json r = resolves j /\ d = data j.

(** The assistant message that answers a settled fetch. *)
Definition reply (out : Settled Response) : jsstring :=
  match awaited out with
  | resolves d => response d
  | rejects err => errorContent err
  end.

(** The two messages a completed call leaves in the history. *)
Definition exchange (t : Turn) : list Chat.Message :=
  [ {| Chat.role := user; Chat.content := trim (typed t);
       Chat.timestamp := sent_at t |};
    {| Chat.role := assistant; Chat.content := reply (outcome t);
       Chat.timestamp := settled_at t |} ].

Definition has_role (r : Role) (m : Chat.Message) : bool :=
  match r, Chat.role m with
  | user, user | assistant, assistant => true
  | _, _ => false
  end.

(** The stored session id is never the empty string. *)
Definition sessionId_wf (st : State) : Prop := sessionId st <> Some [].

(** *** Concrete runs of the chat page *)

Definition greeting : ChatResponse :=
  {| Chat.session_id := lit "s-1"; response := lit "Hi there";
     is_escalated := false; Chat.status := Chat.active;
     Chat.summary := None |}.

Definition handoff : ChatResponse :=
  {| Chat.session_id := lit "s-1"; response := lit "An agent will join";
     is_escalated := true; Chat.status := Chat.escalated;
     Chat.summary := Some (lit "Refund request") |}.

Definition answers (d : ChatResponse) : Settled Response :=
  resolves {| resp_status := 200;
              resp_json := resolves {| data := d; detail := None |} |}.

Definition fails_with (status : nat) : Settled Response :=
  resolves {| resp_status := status; resp_json := rejects ThrownOther |}.

Definition two_turns : list Turn :=
  [ {| typed := lit "hello"; sent_at := 1;
       outcome := answers greeting; settled_at := 2 |};
    {| typed := lit "  refund? "; sent_at := 3;
       outcome := fails_with 503; settled_at := 4 |} ].

(** A first call opens session [s-1]; the second call is answered by
    404. *)
Definition until_not_found : list Event :=
  turn_events {| typed := lit "hello"; sent_at := 1;
                 outcome := answers greeting; settled_at := 2 |}
  ++ turn_events {| typed := lit "hi"; sent_at := 3;
                    outcome := fails_with 404; settled_at := 4 |}.

End ChatVocabulary.

(** The only calls of the two pages. *)
Definition is_send_message (req : Http.Request) : Prop :=
  Http.method req = Http.POST
  /\ Http.url req = lit "http://localhost:8000/api/chat".

Definition is_list_sessions (req : Http.Request) : Prop :=
  Http.method req = Http.GET
  /\ Http.url req = lit "http://localhost:8000/api/conversations".

Definition is_fetch_session (req : Http.Request) : Prop :=
  Http.method req = Http.GET
  /\ exists session_id : jsstring,
       Http.url req
       = lit "http://localhost:8000/api/conversations/" ++ session_id.

(** [hay] has [needle] as a contiguous part. *)
Definition contains (hay needle : jsstring) : Prop :=
  exists pre post, hay = pre ++ needle ++ post.

Section DashboardVocabulary.

Import Manage.

Variable toLowerCase : jsstring -> jsstring.

(** The selection as the dashboard describes it. *)
Definition contains_ci (hay needle : jsstring) : Prop :=
  contains (toLowerCase hay) (toLowerCase needle).

Definition status_selected (f : StatusFilter) (conv : Conversation) : Prop :=
  f = all \/ status conv = filter_value f.

Definition text_selected (term : jsstring) (conv : Conversation) : Prop :=
  contains_ci (session_id conv) term
  \/ exists s, summary conv = Some s /\ contains_ci s term.

Definition selected (f : StatusFilter) (term : jsstring) (conv : Conversation)
  : Prop :=
  status_selected f conv /\ text_selected term conv.

(** The two callbacks of the effect as one predicate. *)
Definition selectedb (f : StatusFilter) (term : jsstring) (conv : Conversation)
  : bool :=
  (StatusFilter_eqb f all || JS.eqb (status conv) (filter_value f))
  && (negb (truthy term) || matchesSearch toLowerCase term conv).

(** The filtered list agrees with the filters in force. *)
Definition filtered_ok (st : Manage.State) : Prop :=
  filteredConversations st
  = applyFilters toLowerCase (conversations st) (searchTerm st)
                 (statusFilter st).

End DashboardVocabulary.

Section DashboardData.

Import Manage.

Definition row (id status : string) (count : Z) (summary : option string)
  : Conversation :=
  {| session_id := lit id; status := lit status;
     created_at := lit "2025-01-01T10:00:00+00:00";
     updated_at := lit "2025-01-01T10:05:00+00:00";
     message_count := Number_of_Z count;
     is_escalated := JS.eqb (lit status) (lit "escalated");
     summary := option_map lit summary |}.

Definition three_rows : list Conversation :=
  [ row "A-17" "active" 2 None;
    row "b-02" "escalated" 5 (Some "Customer wants a Refund"%string);
    row "c-03" "escalated" 4 (Some "Login fails"%string) ].

End DashboardData.

Section RenderTextVocabulary.

Import Markdown.

Definition star_free (s : jsstring) : Prop :=
  Forall (fun c => isStar c = false) s.

Definition is_star (c : char16) : Prop := isStar c = true.

(** A bold span as the pattern reads it: an opening marker of one or
    two stars, a non-empty text without stars, and the same closing
    marker. *)
Inductive bold_span : jsstring -> jsstring -> Prop :=
| bold_double (c1 c2 d1 d2 : char16) (g : jsstring) :
    is_star c1 -> is_star c2 -> is_star d1 -> is_star d2 ->
    g <> [] -> star_free g ->
    bold_span (c1 :: c2 :: g ++ [d1; d2]) g
| bold_single (c1 d1 : char16) (g : jsstring) :
    is_star c1 -> is_star d1 -> g <> [] -> star_free g ->
    bold_span (c1 :: g ++ [d1]) g.

(** [strips s o]: [o] is [s] with the markers of some of its bold spans
    removed and every other character kept in place. *)
Inductive strips : jsstring -> jsstring -> Prop :=
| strips_nil : strips [] []
| strips_keep (c : char16) (s o : jsstring) :
    strips s o -> strips (c :: s) (c :: o)
| strips_bold (w g s o : jsstring) :
    bold_span w g -> strips s o -> strips (w ++ s) (g ++ o).

(** A bold span begins the string. *)
Definition starts_bold (s : jsstring) : Prop :=
  exists w g rest, bold_span w g /\ s = w ++ rest.

(** [unmarks s o]: [o] is [s] with the bold markers removed.  Reading
    [s] from the left, where a bold span begins its markers are dropped,
    its text is kept and reading resumes after the span; where none
    begins, the character is kept. *)
Inductive unmarks : jsstring -> jsstring -> Prop :=
| unmarks_nil : unmarks [] []
| unmarks_keep (c : char16) (s o : jsstring) :
    ~ starts_bold (c :: s) -> unmarks s o -> unmarks (c :: s) (c :: o)
| unmarks_bold (w g s o : jsstring) :
    bold_span w g -> unmarks s o -> unmarks (w ++ s) (g ++ o).

Definition not_star (c : char16) : bool := negb (isStar c).

Definition parts_text (parts : list Part) : jsstring :=
  concat (List.map part_text parts).

End RenderTextVocabulary.

(** * Further vocabulary *)

Section ChatHistoryVocabulary.

Import Chat.

(** A sequence of events without New Chat. *)
Definition no_reset (es : list Event) : Prop :=
  Forall (fun e => e <> ev_reset) es.

(** The roles of [n] answered exchanges. *)
Fixpoint answered (n : nat) : list Role :=
  match n with
  | 0 => []
  | S n' => user :: assistant :: answered n'
  end.

(** The texts of the user messages of a history. *)
Definition user_texts (history : list Chat.Message) : list jsstring :=
  List.map Chat.content (List.filter (has_role user) history).

(** The [user_message] a request carries. *)
Definition sent_text (req : Http.Request) : jsstring :=
  match Http.body req with
  | Some b => Http.user_message b
  | None => []
  end.

(** The loading flag is up exactly when a call is in flight. *)
Definition loading_ok (p : Page) : Prop :=
  isLoading (state p) = true <-> pending p <> None.

(** What the closure of a call in flight captured agrees with the
    state: a call started without a session id is in flight only while
    none is stored, and no captured id is the empty string. *)
Definition capture_ok (p : Page) : Prop :=
  sessionId_wf (state p)
  /\ (pending p = Some None -> sessionId (state p) = None)
  /\ pending p <> Some (Some []).

Definition white (s : jsstring) : Prop :=
  Forall (fun c => isWhiteSpace c = true) s.

(** The roles are those of answered exchanges, followed by the one user
    message of the call in flight. *)
Definition roles_ok (p : Page) : Prop :=
  exists n : nat,
    List.map Chat.role (messages (state p))
    = answered n ++ (if isLoading (state p) then [user] else []).

Definition renamed : ChatResponse :=
  {| Chat.session_id := lit "s-2"; response := lit "Welcome back";
     is_escalated := false; Chat.status := Chat.active;
     Chat.summary := None |}.

End ChatHistoryVocabulary.

Section DashboardStateVocabulary.

Import Manage.

(** A fetch that resolves with an OK status and a body that parses to
    [data]. *)
Definition fetched {A : Type} (out : Settled (Manage.Response A)) (data : A)
  : Prop :=
  exists r, out = resolves r /\ Http.ok (Manage.resp_status r) = true
            /\ Manage.resp_json r = resolves data.

(** The detail modal is up exactly when a conversation is selected. *)
Definition modal_ok (st : Manage.State) : Prop :=
  showModal st = true <-> selectedConversation st <> None.

Definition known_status (conv : Conversation) : Prop :=
  status conv = lit "active" \/ status conv = lit "escalated".

(** Five conversations of 2^53 - 1 messages each. *)
Definition five_long : list Conversation :=
  repeat (row "long" "active" 9007199254740991 None) 5.

End DashboardStateVocabulary.

Section RenderTextNodesVocabulary.

Import Markdown MarkdownLines.

(** A node as [renderText] pushes it: a non-empty text, or a bold
    element whose key is a position of the input and whose text is
    defined, non-empty and without stars. *)
Definition part_ok (input : jsstring) (p : Part) : Prop :=
  match p with
  | text s => s <> []
  | strong k c =>
    k < length input /\ exists g, c = Some g /\ g <> [] /\ star_free g
  end.

(** The React keys of the bold elements. *)
Fixpoint keys (parts : list Part) : list nat :=
  match parts with
  | [] => []
  | text _ :: ps => keys ps
  | strong k _ :: ps => k :: keys ps
  end.

(** [lines.join('\n')]. *)
Fixpoint join_lines (lines : list jsstring) : jsstring :=
  match lines with
  | [] => []
  | [line] => line
  | line :: rest => line ++ [10%N] ++ join_lines rest
  end.

Definition is_newline (c : char16) : bool := (c =? 10)%N.

(** The first character of a string passes a test, or there is none. *)
Definition starts_outside (p : char16 -> bool) (s : jsstring) : Prop :=
  match s with
  | c :: _ => p c = false
  | [] => True
  end.

(** The text of the blocks, each block being its sign followed by a
    piece. *)
Fixpoint signed_pieces (sign : jsstring) (blocks : list Block)
    (pieces : list jsstring) : list jsstring :=
  match blocks, pieces with
  | b :: blocks', piece :: pieces' =>
    (block_sign sign b ++ piece) :: signed_pieces sign blocks' pieces'
  | _, _ => []
  end.

End RenderTextNodesVocabulary.

(** * Properties of the chat page *)

Section ChatProperties.

Import Chat.

Lemma trimStart_whitespace (s : jsstring) :
  Forall (fun c => isWhiteSpace c = true) s -> trimStart s = [].
Proof.
  induction 1 as [|c s Hc _ IH]; simpl; [reflexivity|]. now rewrite Hc.
Qed.

Lemma trim_whitespace (s : jsstring) :
  Forall (fun c => isWhiteSpace c = true) s -> trim s = [].
Proof.
  intros H. unfold trim, trimEnd. now rewrite (trimStart_whitespace s H).
Qed.

Lemma rejected_false (st : State) :
  rejected st = false <-> trim (inputMessage st) <> [] /\ isLoading st = false.
Proof.
  unfold rejected.
  destruct (trim (inputMessage st)); destruct (isLoading st); simpl;
    (split; [try discriminate; intros _; split; congruence
            | intros Hc; destruct Hc; congruence]).
Qed.

Lemma awaited_resolves (out : Settled Response) (d : ChatResponse) :
  awaited out = resolves d <-> succeeds out d.
Proof.
  unfold awaited, succeeds. split.
  - destruct out as [e|r]; [discriminate|].
    destruct (Http.ok (resp_status r)) eqn:Hok; simpl.
    + destruct (resp_json r) as [e|j] eqn:Hj; [discriminate|].
      intros [= <-]. now exists r, j.
    + destruct (resp_status r =? 404); [discriminate|].
      destruct (resp_status r =? 500); [|discriminate].
      destruct (resp_json r); discriminate.
  - intros (r & j & -> & Hok & Hj & ->). now rewrite Hok, Hj.
Qed.

Lemma settle_messages (captured : option jsstring) (now : nat)
    (out : Settled Response) (st : State) :
  messages (sendMessage_settle captured now out st)
  = messages st ++ [ {| Chat.role := assistant; Chat.content := reply out;
                        Chat.timestamp := now |} ].
Proof.
  unfold sendMessage_settle, reply. now destruct (awaited out).
Qed.

Lemma settle_isLoading (captured : option jsstring) (now : nat)
    (out : Settled Response) (st : State) :
  isLoading (sendMessage_settle captured now out st) = false.
Proof. unfold sendMessage_settle. now destruct (awaited out). Qed.

Lemma run_app (p : Page) (es1 es2 : list Event) :
  run p (es1 ++ es2)
  = let '(p1, r1) := run p es1 in
    let '(p2, r2) := run p1 es2 in (p2, r1 ++ r2).
Proof.
  revert p. induction es1 as [|e es1 IH]; intros p; simpl.
  - now destruct (run p es2).
  - destruct (step p e) as [p1 r1]. rewrite IH.
    destruct (run p1 es1) as [p2 r2]. destruct (run p2 es2) as [p3 r3].
    now rewrite app_assoc.
Qed.

(** One completed call from an idle page. *)
Lemma run_turn (p : Page) (t : Turn) :
  isLoading (state p) = false -> trim (typed t) <> [] ->
  let p' := fst (run p (turn_events t)) in
  messages (state p') = messages (state p) ++ exchange t
  /\ isLoading (state p') = false.
Proof.
  intros Hidle Hne. unfold turn_events. cbn [run step].
  assert (Hrej : rejected (setInputMessage (typed t) (state p)) = false).
  { apply rejected_false. simpl. auto. }
  unfold sendMessage_start. cbn [state]. rewrite Hrej. cbn.
  rewrite settle_messages, settle_isLoading. cbn.
  split; [|reflexivity]. now rewrite <- app_assoc.
Qed.

Lemma run_turns (ts : list Turn) : forall p : Page,
  isLoading (state p) = false ->
  Forall (fun t => trim (typed t) <> []) ts ->
  let p' := fst (run p (flat_map turn_events ts)) in
  messages (state p') = messages (state p) ++ flat_map exchange ts
  /\ isLoading (state p') = false.
Proof.
  induction ts as [|t ts IH]; intros p Hidle Hall; cbn [flat_map].
  - cbn. now rewrite app_nil_r.
  - apply Forall_cons_1 in Hall as [Ht Hts].
    destruct (run_turn p t Hidle Ht) as [Hm Hl].
    rewrite run_app.
    destruct (run p (turn_events t)) as [p1 r1] eqn:E1. cbn [fst] in Hm, Hl.
    destruct (IH p1 Hl Hts) as [Hm' Hl'].
    destruct (run p1 (flat_map turn_events ts)) as [p2 r2]. cbn [fst] in *.
    rewrite Hm', Hm, <- app_assoc. auto.
Qed.

Lemma exchange_counts (ts : list Turn) :
  length (flat_map exchange ts) = 2 * length ts
  /\ length (List.filter (has_role user) (flat_map exchange ts)) = length ts
  /\ length (List.filter (has_role assistant) (flat_map exchange ts))
     = length ts.
Proof.
  induction ts as [|t ts (IH1 & IH2 & IH3)]; cbn; [auto|].
  rewrite IH1, IH2, IH3. repeat split; lia.
Qed.

(** C2: in a chat session, that is from a page with an empty history
    and no call in flight (the first render, or after [resetChat]),
    after N completed calls of [sendMessage] on non-blank inputs the
    history is the concatenation, in call order, of one user message
    and its assistant reply per call: 2N entries, N of role user and N
    of role assistant. *)
Theorem history_after_completed_turns (p : Page) (ts : list Turn) :
  messages (state p) = [] -> isLoading (state p) = false ->
  Forall (fun t => trim (typed t) <> []) ts ->
  let history := messages (state (fst (run p (flat_map turn_events ts)))) in
  history = flat_map exchange ts
  /\ length history = 2 * length ts
  /\ length (List.filter (has_role user) history) = length ts
  /\ length (List.filter (has_role assistant) history) = length ts.
Proof.
  intros Hnew Hidle Hall history.
  destruct (run_turns ts p Hidle Hall) as [Hm _].
  rewrite Hnew in Hm. cbn [app] in Hm. subst history. rewrite Hm.
  split; [reflexivity|]. apply exchange_counts.
Qed.

Lemma history_after_completed_turns_witness :
  Forall (fun t => trim (typed t) <> []) two_turns
  /\ length (messages (state (fst (run start (flat_map turn_events two_turns)))))
     = 2 * 2.
Proof.
  assert (H : Forall (fun t => trim (typed t) <> []) two_turns)
    by (repeat constructor; vm_compute; discriminate).
  split; [exact H|].
  pose proof (history_after_completed_turns start two_turns eq_refl eq_refl H)
    as W.
  cbv zeta in W. exact (proj1 (proj2 W)).
Defined.

Lemma reply_of_success (out : Settled Response) (d : ChatResponse) :
  succeeds out d -> reply out = response d.
Proof. intros H. apply awaited_resolves in H. unfold reply. now rewrite H. Qed.

Lemma reply_of_failure (out : Settled Response) :
  (forall d, ~ succeeds out d) ->
  exists errorMessage : jsstring,
    reply out = lit "Sorry, I encountered an error: " ++ errorMessage
                ++ lit ". Please try again.".
Proof.
  intros Hno. unfold reply. destruct (awaited out) as [err|d] eqn:E.
  - now exists (errorMessage err).
  - apply awaited_resolves in E. now destruct (Hno d).
Qed.

(** C3: a completed call of [sendMessage] that passes the guard appends
    the user message and then exactly one assistant message: the
    response text when the fetch succeeds, and otherwise (network
    failure, non-OK status, unreadable body) a message that reports the
    error and asks to try again. *)
Theorem every_send_is_answered (p : Page) (sent settled : nat)
    (out : Settled Response) :
  rejected (state p) = false ->
  let p' := fst (run p [ev_send sent; ev_settle out settled]) in
  exists answer : jsstring,
    messages (state p')
    = messages (state p)
      ++ [ {| Chat.role := user;
              Chat.content := trim (inputMessage (state p));
              Chat.timestamp := sent |};
           {| Chat.role := assistant; Chat.content := answer;
              Chat.timestamp := settled |} ]
    /\ (forall d, succeeds out d -> answer = response d)
    /\ ((forall d, ~ succeeds out d) ->
        exists errorMessage : jsstring,
          answer = lit "Sorry, I encountered an error: " ++ errorMessage
                   ++ lit ". Please try again.").
Proof.
  intros Hrej. cbn [run step]. unfold sendMessage_start. rewrite Hrej. cbn.
  exists (reply out). rewrite settle_messages. cbn. split.
  - now rewrite <- app_assoc.
  - split; [apply reply_of_success | apply reply_of_failure].
Qed.

Lemma every_send_is_answered_witness :
  rejected (setInputMessage (lit "hello") initial) = false
  /\ exists answer : jsstring,
       messages (state (fst (run
         {| state := setInputMessage (lit "hello") initial; pending := None |}
         [ev_send 1; ev_settle (fails_with 503) 2])))
       = [ {| Chat.role := user; Chat.content := lit "hello";
              Chat.timestamp := 1 |};
           {| Chat.role := assistant; Chat.content := answer;
              Chat.timestamp := 2 |} ].
Proof.
  split; [reflexivity|].
  destruct (every_send_is_answered
              {| state := setInputMessage (lit "hello") initial;
                 pending := None |} 1 2 (fails_with 503) eq_refl)
    as (answer & Hm & _).
  exists answer. exact Hm.
Defined.

Lemma step_keeps_escalated (p : Page) (e : Event) :
  e <> ev_reset -> isEscalated (state p) = true ->
  isEscalated (state (fst (step p e))) = true.
Proof.
  intros Hne Hesc. destruct e as [s|now|out now|]; cbn.
  - exact Hesc.
  - unfold sendMessage_start. now destruct (rejected (state p)).
  - destruct (pending p) as [captured|]; [|exact Hesc]. cbn.
    unfold sendMessage_settle. destruct (awaited out) as [err|d]; cbn; auto.
    now destruct (is_escalated d).
  - congruence.
Qed.

Lemma run_keeps_escalated (es : list Event) : forall p : Page,
  Forall (fun e => e <> ev_reset) es -> isEscalated (state p) = true ->
  isEscalated (state (fst (run p es))) = true.
Proof.
  induction es as [|e es IH]; intros p Hall Hesc; cbn; [exact Hesc|].
  apply Forall_cons_1 in Hall as [He Hes].
  pose proof (step_keeps_escalated p e He Hesc) as H1.
  destruct (step p e) as [p1 r1]. cbn [fst] in H1.
  specialize (IH p1 Hes H1). now destruct (run p1 es).
Qed.

(** C4: once the fetch of a call in flight succeeds with [is_escalated]
    true, [isEscalated] is true after that step and after every further
    sequence of events without [resetChat], whatever the later
    responses report. *)
Theorem escalated_is_monotonic (p : Page) (captured : option jsstring)
    (out : Settled Response) (d : ChatResponse) (now : nat) (es : list Event) :
  pending p = Some captured ->
  succeeds out d -> is_escalated d = true ->
  Forall (fun e => e <> ev_reset) es ->
  isEscalated (state (fst (run p (ev_settle out now :: es)))) = true.
Proof.
  intros Hpend Hok Hesc Hall. cbn [run step]. rewrite Hpend.
  match goal with
  | |- context [run ?q es] =>
      pose proof (run_keeps_escalated es q Hall) as H; destruct (run q es)
  end.
  cbn [fst state] in *. apply H.
  unfold sendMessage_settle. apply awaited_resolves in Hok. rewrite Hok. cbn.
  now rewrite Hesc.
Qed.

Lemma escalated_is_monotonic_witness :
  succeeds (answers handoff) handoff
  /\ isEscalated (state (fst (run
       {| state := initial; pending := Some None |}
       [ev_settle (answers handoff) 2; ev_input (lit "thanks"); ev_send 3;
        ev_settle (answers greeting) 4]))) = true.
Proof.
  assert (H : succeeds (answers handoff) handoff).
  { eexists _, _. repeat split; reflexivity. }
  split; [exact H|].
  apply (escalated_is_monotonic {| state := initial; pending := Some None |}
           None (answers handoff) handoff 2
           [ev_input (lit "thanks"); ev_send 3; ev_settle (answers greeting) 4]
           eq_refl H eq_refl).
  repeat constructor; discriminate.
Defined.

(** C5: when the input is empty or consists of white space only, or a
    call is in flight ([isLoading]), [sendMessage] returns at its guard:
    no request is issued and the page, with its messages, [sessionId],
    [isEscalated] and [error], is unchanged. *)
Theorem blank_or_busy_send_is_noop (p : Page) (now : nat) :
  Forall (fun c => isWhiteSpace c = true) (inputMessage (state p))
  \/ isLoading (state p) = true ->
  sendMessage_start now (state p) = None
  /\ step p (ev_send now) = (p, []).
Proof.
  intros H.
  assert (Hrej : rejected (state p) = true).
  { unfold rejected. destruct H as [H|H].
    - now rewrite (trim_whitespace _ H).
    - rewrite H. apply orb_true_r. }
  cbn. unfold sendMessage_start. now rewrite Hrej.
Qed.

Lemma blank_or_busy_send_is_noop_witness :
  Forall (fun c => isWhiteSpace c = true) (lit "   ")
  /\ step {| state := setInputMessage (lit "   ") initial; pending := None |}
          (ev_send 1)
     = ({| state := setInputMessage (lit "   ") initial; pending := None |}, []).
Proof.
  assert (H : Forall (fun c => isWhiteSpace c = true) (lit "   "))
    by (repeat constructor).
  split; [exact H|].
  exact (proj2 (blank_or_busy_send_is_noop
                  {| state := setInputMessage (lit "   ") initial;
                     pending := None |} 1 (or_introl H))).
Defined.

Lemma step_sessionId_wf (p : Page) (e : Event) :
  sessionId_wf (state p) -> sessionId_wf (state (fst (step p e))).
Proof.
  unfold sessionId_wf. intros Hwf. destruct e as [s|now|out now|]; cbn.
  - exact Hwf.
  - unfold sendMessage_start. now destruct (rejected (state p)).
  - destruct (pending p) as [captured|]; [|exact Hwf]. cbn.
    unfold sendMessage_settle. destruct (awaited out) as [err|d]; cbn; auto.
    destruct (negb (truthy_opt captured)); cbn; [|exact Hwf].
    destruct (Chat.session_id d) eqn:E; cbn; [exact Hwf|]. discriminate.
  - discriminate.
Qed.

Lemma run_sessionId_wf (es : list Event) : forall p : Page,
  sessionId_wf (state p) -> sessionId_wf (state (fst (run p es))).
Proof.
  induction es as [|e es IH]; intros p Hwf; cbn; [exact Hwf|].
  pose proof (step_sessionId_wf p e Hwf) as H1.
  destruct (step p e) as [p1 r1]. cbn [fst] in H1.
  specialize (IH p1 H1). now destruct (run p1 es).
Qed.

(** C6: in every state the page reaches, the request of an accepted
    call is a POST whose body holds [user_message], the trimmed input,
    and holds [session_id] exactly when a session id is stored, with
    that id as its value; the response is read as a record of exactly
    the five fields of [ChatResponse]. *)
Theorem send_message_shapes (es : list Event) (now : nat) (st' : State)
    (req : Http.Request) :
  let st := state (fst (run start es)) in
  sendMessage_start now st = Some (st', req) ->
  Http.method req = Http.POST
  /\ Http.body req
     = Some {| Http.user_message := trim (inputMessage st);
               Http.session_id := sessionId st |}
  /\ (forall b, Http.body req = Some b ->
      Http.session_id b <> None <-> sessionId st <> None)
  /\ (forall r : ChatResponse,
      r = {| Chat.session_id := Chat.session_id r;
             response := response r;
             is_escalated := is_escalated r;
             Chat.status := Chat.status r;
             Chat.summary := Chat.summary r |}).
Proof.
  intros st. unfold sendMessage_start.
  destruct (rejected st); [discriminate|]. intros [= <- <-].
  assert (Hwf : sessionId_wf st) by (apply run_sessionId_wf; discriminate).
  assert (Hbody : requestBody (trim (inputMessage st)) (sessionId st)
                  = {| Http.user_message := trim (inputMessage st);
                       Http.session_id := sessionId st |}).
  { unfold requestBody. f_equal. unfold sessionId_wf in Hwf.
    destruct (sessionId st) as [[|c s]|] eqn:E; cbn;
      [now destruct Hwf | reflexivity | reflexivity]. }
  cbn. rewrite Hbody. repeat split.
  - intros Hb. injection H as <-. exact Hb.
  - intros Hs. injection H as <-. exact Hs.
  - now destruct r.
Qed.

Lemma send_message_shapes_witness :
  exists (st' : State) (req : Http.Request),
    sendMessage_start 5
      (state (fst (run start (turn_events
                 {| typed := lit "hello"; sent_at := 1;
                    outcome := answers greeting; settled_at := 2 |}
               ++ [ev_input (lit "again")]))))
    = Some (st', req)
    /\ Http.body req
       = Some {| Http.user_message := lit "again";
                 Http.session_id := Some (lit "s-1") |}.
Proof.
  eexists _, _. split; [reflexivity|].
  refine (proj1 (proj2 (send_message_shapes
    (turn_events {| typed := lit "hello"; sent_at := 1;
                    outcome := answers greeting; settled_at := 2 |}
     ++ [ev_input (lit "again")]) 5 _ _ eq_refl))).
Defined.

(** C1 (the behaviour of the code on an unknown session): after session
    [s-1] was opened and a later call was answered by 404, the page
    announces that a new conversation starts, yet [sessionId] is still
    [s-1], and the request of the next call carries [session_id = s-1]. *)
Theorem not_found_keeps_session_id :
  let p := fst (run start until_not_found) in
  error (state p)
  = Some (lit "Session not found. Starting a new conversation.")
  /\ List.map Chat.content (messages (state p))
     = [ lit "hello"; lit "Hi there"; lit "hi";
         lit "Sorry, I encountered an error: Session not found. Starting a new conversation.. Please try again." ]
  /\ sessionId (state p) = Some (lit "s-1")
  /\ snd (run p [ev_input (lit "again"); ev_send 5])
     = [ chatRequest (lit "again") (Some (lit "s-1")) ]
  /\ Http.body (chatRequest (lit "again") (Some (lit "s-1")))
     = Some {| Http.user_message := lit "again";
               Http.session_id := Some (lit "s-1") |}.
Proof. vm_compute. repeat split. Qed.

Lemma chat_step_requests (p : Chat.Page) (e : Chat.Event) :
  Forall is_send_message (snd (Chat.step p e)).
Proof.
  destruct e as [s|now|out now|]; cbn.
  - constructor.
  - unfold sendMessage_start. destruct (Chat.rejected (Chat.state p)); cbn;
      [constructor|].
    constructor; [split; reflexivity|constructor].
  - destruct (Chat.pending p); constructor.
  - constructor.
Qed.

Lemma chat_run_requests (es : list Chat.Event) : forall p : Chat.Page,
  Forall is_send_message (snd (Chat.run p es)).
Proof.
  induction es as [|e es IH]; intros p; cbn; [constructor|].
  pose proof (chat_step_requests p e) as H1.
  destruct (Chat.step p e) as [p1 r1]. specialize (IH p1).
  destruct (Chat.run p1 es) as [p2 r2]. cbn [snd] in *.
  apply Forall_app. now split.
Qed.

End ChatProperties.

(** * Properties of the admin dashboard *)

Lemma startsWith_prefix (t : jsstring) : forall s : jsstring,
  startsWith s t = true <-> exists post, s = t ++ post.
Proof.
  induction t as [|b t IH]; intros s.
  - destruct s; simpl; split; eauto.
  - destruct s as [|a s]; simpl.
    + split; [discriminate|]. intros [post H]. discriminate.
    + rewrite andb_true_iff, N.eqb_eq, IH. split.
      * intros [-> [post ->]]. now exists post.
      * intros [post [= -> ->]]. eauto.
Qed.

Lemma includes_contains (s t : jsstring) :
  includes s t = true <-> contains s t.
Proof.
  unfold contains. induction s as [|a s IH].
  - cbn [includes]. rewrite orb_false_r, startsWith_prefix. split.
    + intros [post ->]. now exists [], post.
    + intros (pre & post & H). destruct pre; [now exists post|discriminate].
  - cbn [includes]. rewrite orb_true_iff, IH, startsWith_prefix. split.
    + intros [[post ->]|(pre & post & ->)].
      * now exists [], post.
      * now exists (a :: pre), post.
    + intros (pre & post & H). destruct pre as [|a' pre].
      * left. now exists post.
      * right. injection H as -> ->. now exists pre, post.
Qed.

Lemma JS_eqb_eq (a b : jsstring) : JS.eqb a b = true <-> a = b.
Proof. unfold JS.eqb. apply bool_decide_eq_true. Qed.

Lemma filter_filter {A : Type} (p q : A -> bool) (l : list A) :
  List.filter q (List.filter p l) = List.filter (fun x => p x && q x) l.
Proof.
  induction l as [|x l IH]; simpl; [reflexivity|].
  destruct (p x); simpl; [destruct (q x)|]; now rewrite IH.
Qed.

Lemma filter_sublist {A : Type} (p : A -> bool) (l : list A) :
  List.filter p l `sublist_of` l.
Proof.
  induction l as [|x l IH]; simpl; [constructor|].
  destruct (p x); now constructor.
Qed.

Lemma filter_true {A : Type} (l : list A) : List.filter (fun _ => true) l = l.
Proof. induction l as [|x l IH]; simpl; congruence. Qed.

Section Dashboard.

Import Manage.

Variable toLowerCase : jsstring -> jsstring.

(** Lower-casing maps the empty string, and nothing else, to the empty
    string. *)
Hypothesis toLowerCase_nil : forall s, toLowerCase s = [] <-> s = [].

Lemma applyFilters_filter (cs : list Conversation) (term : jsstring)
    (f : StatusFilter) :
  applyFilters toLowerCase cs term f = List.filter (selectedb toLowerCase f term) cs.
Proof.
  unfold applyFilters, selectedb.
  destruct (StatusFilter_eqb f all) eqn:Ef; destruct (truthy term) eqn:Et;
    cbn [negb orb andb].
  - reflexivity.
  - now rewrite filter_true.
  - now rewrite filter_filter.
  - apply List.filter_ext. intros conv. now rewrite andb_true_r.
Qed.

Lemma status_selectedb (f : StatusFilter) (conv : Conversation) :
  StatusFilter_eqb f all || JS.eqb (status conv) (filter_value f) = true
  <-> status_selected f conv.
Proof.
  unfold status_selected. rewrite orb_true_iff, JS_eqb_eq.
  destruct f; simpl; split; intros [H|H]; auto; discriminate.
Qed.

Lemma text_selectedb (term : jsstring) (conv : Conversation) :
  negb (truthy term) || matchesSearch toLowerCase term conv = true
  <-> text_selected toLowerCase term conv.
Proof using toLowerCase_nil.
  unfold text_selected, contains_ci, matchesSearch.
  destruct term as [|c term]; cbn [truthy negb orb].
  - split; [intros _|reflexivity]. left.
    rewrite (proj2 (toLowerCase_nil []) eq_refl). now exists [], (toLowerCase (session_id conv)).
  - rewrite orb_true_iff, includes_contains.
    destruct (summary conv) as [s|].
    + rewrite andb_true_iff, includes_contains. split.
      * intros [H|[_ H]]; [now left|right; eauto].
      * intros [H|(s' & Hs & H)]; [now left|right].
        injection Hs as <-.
        split; [|exact H]. destruct s as [|a s]; [|reflexivity].
        destruct H as (pre & post & H).
        rewrite (proj2 (toLowerCase_nil []) eq_refl) in H.
        destruct pre; [|discriminate]. simpl in H.
        destruct (toLowerCase (c :: term)) eqn:E; [|discriminate].
        apply (proj1 (toLowerCase_nil _)) in E. discriminate E.
    + split; [intros [H|H]; [now left|discriminate]|].
      intros [H|(s' & H & _)]; [now left|discriminate].
Qed.

Lemma selectedb_selected (f : StatusFilter) (term : jsstring)
    (conv : Conversation) :
  selectedb toLowerCase f term conv = true <-> selected toLowerCase f term conv.
Proof using toLowerCase_nil.
  unfold selectedb, selected.
  now rewrite andb_true_iff, status_selectedb, text_selectedb.
Qed.

Lemma step_filtered_ok (st : Manage.State) (e : Manage.Event) :
  filtered_ok toLowerCase st -> filtered_ok toLowerCase (fst (Manage.step toLowerCase st e)).
Proof.
  unfold filtered_ok. intros Hok.
  destruct e as [| |row|s|f| |out|out]; cbn.
  - reflexivity.
  - destruct (isLoading st); exact Hok.
  - destruct (isLoading st && _); [exact Hok|].
    destruct (filteredConversations st !! row); exact Hok.
  - unfold setSearchTerm. destruct (JS.eqb s (searchTerm st)); [exact Hok|].
    reflexivity.
  - unfold setStatusFilter.
    destruct (StatusFilter_eqb f (statusFilter st)); [exact Hok|]. reflexivity.
  - exact Hok.
  - unfold fetchConversations_settle.
    destruct (Manage.awaited _ out); [exact Hok|reflexivity].
  - unfold fetchConversationDetail_settle.
    destruct (Manage.awaited _ out); exact Hok.
Qed.

Lemma run_filtered_ok (es : list Manage.Event) : forall st : Manage.State,
  filtered_ok toLowerCase st -> filtered_ok toLowerCase (fst (Manage.run toLowerCase st es)).
Proof.
  induction es as [|e es IH]; intros st Hok; cbn; [exact Hok|].
  pose proof (step_filtered_ok st e Hok) as H1.
  destruct (Manage.step toLowerCase st e) as [st1 r1]. cbn [fst] in H1.
  specialize (IH st1 H1). now destruct (Manage.run toLowerCase st1 es).
Qed.

(** C7: the filtering effect keeps exactly the conversations whose
    status is the selected one (all of them under ['all']) and whose
    session id or summary contains the search term, compared in lower
    case; it keeps them in the order of the fetched list; and in every
    state the dashboard reaches, [filteredConversations] is that
    selection of [conversations]. *)
Theorem filtering_selects_in_order :
  (forall (cs : list Conversation) (term : jsstring) (f : StatusFilter),
     applyFilters toLowerCase cs term f = List.filter (selectedb toLowerCase f term) cs
     /\ (forall conv, selectedb toLowerCase f term conv = true <-> selected toLowerCase f term conv)
     /\ applyFilters toLowerCase cs term f `sublist_of` cs)
  /\ (forall es : list Manage.Event,
        let st := fst (Manage.run toLowerCase Manage.initial es) in
        filteredConversations st
        = applyFilters toLowerCase (conversations st) (searchTerm st)
                       (statusFilter st)).
Proof using toLowerCase_nil.
  split.
  - intros cs term f. split; [apply applyFilters_filter|].
    split; [intros conv; apply selectedb_selected|].
    rewrite applyFilters_filter. apply filter_sublist.
  - intros es. apply run_filtered_ok. reflexivity.
Qed.

End Dashboard.

Section DashboardProperties.

Import Manage.

Lemma asciiLowerCase_nil (s : jsstring) : asciiLowerCase s = [] <-> s = [].
Proof. destruct s; simpl; split; intros H; try reflexivity; discriminate. Qed.

Lemma filtering_selects_in_order_witness :
  (forall s, asciiLowerCase s = [] <-> s = [])
  /\ applyFilters asciiLowerCase three_rows (lit "REFUND") escalated
     = [row "b-02" "escalated" 5 (Some "Customer wants a Refund"%string)]
  /\ applyFilters asciiLowerCase three_rows (lit "a-1") all
     = [row "A-17" "active" 2 None].
Proof.
  split; [exact asciiLowerCase_nil|].
  pose proof (filtering_selects_in_order asciiLowerCase asciiLowerCase_nil)
    as [W _].
  split.
  - rewrite (proj1 (W three_rows (lit "REFUND") escalated)). reflexivity.
  - rewrite (proj1 (W three_rows (lit "a-1") all)). reflexivity.
Defined.

Lemma stats_counts (cs : list Conversation) :
  Forall (fun c => status c = lit "active" \/ status c = lit "escalated") cs ->
  length cs
  = length (List.filter (fun c => JS.eqb (status c) (lit "active")) cs)
    + length (List.filter (fun c => JS.eqb (status c) (lit "escalated")) cs).
Proof.
  induction 1 as [|c cs Hc _ IH]; simpl; [reflexivity|].
  assert (Haa : JS.eqb (lit "active") (lit "active") = true) by reflexivity.
  assert (Hae : JS.eqb (lit "active") (lit "escalated") = false) by reflexivity.
  assert (Hea : JS.eqb (lit "escalated") (lit "active") = false) by reflexivity.
  assert (Hee : JS.eqb (lit "escalated") (lit "escalated") = true)
    by reflexivity.
  destruct Hc as [Hc|Hc]; rewrite Hc, ?Haa, ?Hae, ?Hea, ?Hee; simpl; lia.
Qed.

(** C9: on a list whose statuses are all ['active'] or ['escalated'],
    [total] is the sum of [active] and [escalated]; [avgMessages] is 0
    on the empty list; and on every list [avgMessages] is a number,
    the rounded quotient being taken only with a positive divisor. *)
Theorem stats_are_well_defined (cs : list Conversation) :
  (Forall (fun c => status c = lit "active" \/ status c = lit "escalated") cs ->
   total (stats cs) = stat_active (stats cs) + stat_escalated (stats cs))
  /\ avgMessages (stats []) = Some PrimFloat.zero
  /\ (exists avg : number, avgMessages (stats cs) = Some avg)
  /\ (cs <> [] ->
      avgMessages (stats cs)
      = Math_round_div
          (fold_left (fun sum c => PrimFloat.add sum (message_count c)) cs
                     PrimFloat.zero)
          (length cs)
      /\ 0 < length cs).
Proof.
  split; [apply stats_counts|]. split; [reflexivity|].
  destruct cs as [|c cs]; cbn [stats avgMessages].
  - split; [now exists PrimFloat.zero|]. intros H. now destruct H.
  - split; [|intros _; split; [reflexivity|simpl; lia]].
    simpl. unfold Math_round_div. simpl. eauto.
Qed.

Lemma stats_are_well_defined_witness :
  Forall (fun c => status c = lit "active" \/ status c = lit "escalated")
         three_rows
  /\ total (stats three_rows) = 1 + 2
  /\ avgMessages (stats three_rows) = Some (Number_of_Z 4).
Proof.
  assert (H : Forall (fun c => status c = lit "active"
                               \/ status c = lit "escalated") three_rows)
    by (constructor; [left; reflexivity|];
        constructor; [right; reflexivity|];
        constructor; [right; reflexivity|]; constructor).
  split; [exact H|]. split.
  - exact (proj1 (stats_are_well_defined three_rows) H).
  - reflexivity.
Defined.

Lemma manage_step_requests (lower : jsstring -> jsstring)
    (st : Manage.State) (e : Manage.Event) :
  Forall (fun req => is_list_sessions req \/ is_fetch_session req)
         (snd (Manage.step lower st e)).
Proof.
  assert (Hlist : is_list_sessions listRequest) by (split; reflexivity).
  destruct e as [| |row|s|f| |out|out]; cbn; try (constructor; fail).
  - constructor; [now left|constructor].
  - destruct (Manage.isLoading st); cbn; [constructor|].
    constructor; [now left|constructor].
  - destruct (Manage.isLoading st && _); cbn; [constructor|].
    destruct (filteredConversations st !! row) as [conv|]; cbn;
      [|constructor].
    constructor; [|constructor].
    right. split; [reflexivity|]. now exists (session_id conv).
Qed.

Lemma manage_run_requests (lower : jsstring -> jsstring)
    (es : list Manage.Event) : forall st : Manage.State,
  Forall (fun req => is_list_sessions req \/ is_fetch_session req)
         (snd (Manage.run lower st es)).
Proof.
  induction es as [|e es IH]; intros st; cbn; [constructor|].
  pose proof (manage_step_requests lower st e) as H1.
  destruct (Manage.step lower st e) as [st1 r1]. specialize (IH st1).
  destruct (Manage.run lower st1 es) as [st2 r2]. cbn [snd] in *.
  apply Forall_app. now split.
Qed.

(** C8: whatever the events, every request of the chat page is
    [POST /api/chat], and every request of the admin page is
    [GET /api/conversations] or [GET /api/conversations/{session_id}]. *)
Theorem pages_call_only_the_exposed_operations :
  (forall (p : Chat.Page) (es : list Chat.Event),
     Forall is_send_message (snd (Chat.run p es)))
  /\ (forall (lower : jsstring -> jsstring) (st : Manage.State)
             (es : list Manage.Event),
        Forall (fun req => is_list_sessions req \/ is_fetch_session req)
               (snd (Manage.run lower st es))).
Proof.
  split.
  - intros p es. apply chat_run_requests.
  - intros lower st es. apply manage_run_requests.
Qed.

End DashboardProperties.

(** * Properties of [renderText] *)

Section RenderTextProperties.

Import Markdown.

Lemma strips_refl (s : jsstring) : strips s s.
Proof. induction s; now constructor. Qed.

Lemma strips_app_keep (pre s o : jsstring) :
  strips s o -> strips (pre ++ s) (pre ++ o).
Proof. intros H. induction pre; simpl; [exact H|now constructor]. Qed.

Lemma star_free_filter (g : jsstring) :
  star_free g -> List.filter not_star g = g.
Proof.
  induction 1 as [|c g Hc _ IH]; simpl; [reflexivity|].
  unfold not_star at 1. now rewrite Hc, IH.
Qed.

Lemma bold_span_filter (w g : jsstring) :
  bold_span w g -> List.filter not_star w = g.
Proof.
  unfold is_star.
  destruct 1 as [c1 c2 d1 d2 g H1 H2 H3 H4 _ Hg | c1 d1 g H1 H3 _ Hg]; simpl;
    unfold not_star at 1; rewrite ?H1; simpl;
    try (unfold not_star at 1; rewrite H2; simpl);
    rewrite List.filter_app, (star_free_filter g Hg); simpl;
    unfold not_star; rewrite ?H3, ?H4; simpl; apply app_nil_r.
Qed.

Lemma bold_span_sublist (w g : jsstring) : bold_span w g -> g `sublist_of` w.
Proof.
  destruct 1; repeat apply sublist_cons; now apply sublist_inserts_r.
Qed.

Lemma strips_filter (s o : jsstring) :
  strips s o -> List.filter not_star o = List.filter not_star s.
Proof.
  induction 1 as [|c s o _ IH|w g s o Hb _ IH]; simpl.
  - reflexivity.
  - now rewrite IH.
  - rewrite !List.filter_app, IH. f_equal.
    rewrite (bold_span_filter w g Hb).
    destruct Hb; now apply star_free_filter.
Qed.

Lemma strips_sublist (s o : jsstring) : strips s o -> o `sublist_of` s.
Proof.
  induction 1 as [|c s o _ IH|w g s o Hb _ IH].
  - constructor.
  - now constructor.
  - apply sublist_app; [now apply bold_span_sublist|exact IH].
Qed.

Lemma span_not_star_free (s : jsstring) : star_free (fst (span_not_star s)).
Proof.
  induction s as [|c t IH]; simpl; [constructor|].
  destruct (isStar c) eqn:E; [constructor|].
  destruct (span_not_star t) as [run rest]. now constructor.
Qed.

Lemma truthy_nonempty (s : jsstring) : truthy s = true -> s <> [].
Proof. destruct s; [discriminate|]. intros _. discriminate. Qed.

Lemma alt1_spec (i : nat) (s : jsstring) (m : Match) :
  alt1 i s = Some m ->
  exists g, bold_span (whole m) g /\ boldText m = Some g.
Proof.
  unfold alt1. intros H.
  destruct s as [|c1 [|c2 t]]; try discriminate.
  destruct (isStar c1) eqn:H1; [|discriminate].
  destruct (isStar c2) eqn:H2; [|discriminate]. cbn [andb] in H.
  pose proof (span_not_star_free t) as Hfree.
  destruct (span_not_star t) as [run [|d1 [|d2 rest]]]; try discriminate.
  destruct (truthy run) eqn:Hrun; [|discriminate].
  destruct (isStar d1) eqn:H3; [|discriminate].
  destruct (isStar d2) eqn:H4; [|discriminate].
  injection H as <-. exists run. unfold boldText. cbn. rewrite Hrun.
  split; [|reflexivity]. constructor; auto using truthy_nonempty.
Qed.

Lemma alt2_spec (i : nat) (s : jsstring) (m : Match) :
  alt2 i s = Some m ->
  exists g, bold_span (whole m) g /\ boldText m = Some g.
Proof.
  unfold alt2. intros H.
  destruct s as [|c1 t]; try discriminate.
  destruct (isStar c1) eqn:H1; [|discriminate].
  pose proof (span_not_star_free t) as Hfree.
  destruct (span_not_star t) as [run [|d1 rest]]; try discriminate.
  destruct (truthy run) eqn:Hrun; [|discriminate].
  destruct (isStar d1) eqn:H3; [|discriminate].
  injection H as <-. exists run. unfold boldText. cbn.
  split; [|reflexivity]. constructor; auto using truthy_nonempty.
Qed.

Lemma match_here_spec (i : nat) (s : jsstring) (m : Match) :
  match_here i s = Some m ->
  index m = i
  /\ (exists rest, s = whole m ++ rest)
  /\ exists g, bold_span (whole m) g /\ boldText m = Some g.
Proof.
  intros H. destruct (match_here_whole i s m H) as (Hi & _ & Hrest).
  split; [exact Hi|]. split; [exact Hrest|].
  unfold match_here in H. destruct (alt1 i s) eqn:E.
  - injection H as <-. eapply alt1_spec, E.
  - eapply alt2_spec, H.
Qed.

Lemma search_spec (s : jsstring) : forall (i : nat) (m : Match),
  search i s = Some m ->
  exists pre rest g,
    s = pre ++ whole m ++ rest /\ index m = i + length pre
    /\ bold_span (whole m) g /\ boldText m = Some g.
Proof.
  induction s as [|c s IH]; intros i m; cbn [search].
  - destruct (match_here i []) eqn:E; [|discriminate].
    intros [= ->]. apply match_here_spec in E as (Hi & [rest Hs] & g & Hb & Hg).
    exists [], rest, g. simpl. repeat split; auto. lia.
  - destruct (match_here i (c :: s)) eqn:E.
    + intros [= ->].
      apply match_here_spec in E as (Hi & [rest Hs] & g & Hb & Hg).
      exists [], rest, g. simpl. repeat split; auto. lia.
    + intros H. apply IH in H as (pre & rest & g & -> & Hi & Hb & Hg).
      exists (c :: pre), rest, g. simpl. repeat split; auto. lia.
Qed.

Lemma exec_spec (input : jsstring) (lastIndex : nat) (m : Match) :
  exec input lastIndex = Some m ->
  exists g,
    drop lastIndex input
    = substring input lastIndex (index m) ++ whole m
      ++ drop (index m + length (whole m)) input
    /\ ((lastIndex <? index m) = false
        -> substring input lastIndex (index m) = [])
    /\ bold_span (whole m) g /\ boldText m = Some g.
Proof.
  unfold exec. destruct (Nat.ltb_spec (length input) lastIndex); [discriminate|].
  intros Hs. apply search_spec in Hs as (pre & rest & g & Hd & Hi & Hb & Hg).
  exists g.
  assert (Hsub : substring input lastIndex (index m) = pre).
  { unfold substring. rewrite Hd, Hi.
    replace (lastIndex + length pre - lastIndex) with (length pre) by lia.
    now rewrite take_app_length. }
  assert (Hrest : drop (index m + length (whole m)) input = rest).
  { rewrite Hi.
    replace (lastIndex + length pre + length (whole m))
      with (lastIndex + (length pre + length (whole m))) by lia.
    rewrite <- drop_drop, Hd, app_assoc.
    rewrite <- length_app. now rewrite drop_app_length. }
  rewrite Hsub, Hrest. repeat split; auto.
  intros Hlt. apply Nat.ltb_ge in Hlt. destruct pre; [reflexivity|].
  simpl in Hi. lia.
Qed.

Lemma parts_text_app (ps qs : list Part) :
  parts_text (ps ++ qs) = parts_text ps ++ parts_text qs.
Proof. unfold parts_text. now rewrite List.map_app, concat_app. Qed.

Lemma parts_text_snoc (ps : list Part) (p : Part) :
  parts_text (ps ++ [p]) = parts_text ps ++ part_text p.
Proof. rewrite parts_text_app. unfold parts_text. cbn. now rewrite app_nil_r. Qed.

(** The loop adds to [parts] the text of [input] between the entry and
    the exit values of [lastIndex], with the markers of the matched
    spans removed. *)
Lemma renderLoop_strips (input : jsstring) (lastIndex : nat)
    (parts : list Part) :
  exists mid : jsstring,
    parts_text (fst (renderLoop input lastIndex parts))
    = parts_text parts ++ mid
    /\ forall o, strips (drop (snd (renderLoop input lastIndex parts)) input) o
                 -> strips (drop lastIndex input) (mid ++ o).
Proof.
  funelim (renderLoop input lastIndex parts).
  - destruct H as (mid & Htext & Hstrips).
    destruct (exec_spec _ _ _ e) as (g & Hdrop & Hpre & Hb & Hg).
    exists (substring input lastIndex (index m) ++ g ++ mid). split.
    + rewrite Htext, parts_text_snoc, Hg. cbn [part_text].
      destruct (lastIndex <? index m) eqn:Hlt.
      * rewrite parts_text_snoc. cbn [part_text]. now rewrite <- !app_assoc.
      * rewrite (Hpre eq_refl). cbn [app]. now rewrite <- !app_assoc.
    + intros o Ho. rewrite Hdrop, <- !app_assoc.
      apply strips_app_keep. apply strips_bold; [exact Hb|]. now apply Hstrips.
  - exists []. cbn. rewrite app_nil_r. auto.
Qed.

Lemma match_here_star_free (i : nat) (s : jsstring) :
  star_free s -> match_here i s = None.
Proof.
  intros H. unfold match_here, alt1, alt2.
  destruct H as [|c s Hc _]; [reflexivity|]. rewrite Hc.
  now destruct s.
Qed.

Lemma search_star_free (s : jsstring) : forall i : nat,
  star_free s -> search i s = None.
Proof.
  induction s as [|c s IH]; intros i H; cbn [search];
    rewrite (match_here_star_free i _ H); [reflexivity|].
  apply IH. now apply Forall_cons_1 in H as [_ H].
Qed.

Lemma renderLoop_no_match (input : jsstring) (lastIndex : nat)
    (parts : list Part) :
  exec input lastIndex = None ->
  renderLoop input lastIndex parts = (parts, lastIndex).
Proof.
  funelim (renderLoop input lastIndex parts); intros Hnone.
  - congruence.
  - reflexivity.
Qed.

Lemma renderText_star_free (input : jsstring) :
  star_free input ->
  renderText input
  = match input with [] => plain [] | _ :: _ => nodes [text input] end.
Proof.
  intros H. unfold renderText.
  rewrite renderLoop_no_match.
  - now destruct input.
  - unfold exec. simpl. now apply search_star_free.
Qed.

Lemma renderText_strips (input : jsstring) :
  strips input (rendered_text (renderText input)).
Proof.
  unfold renderText.
  destruct (renderLoop_strips input 0 []) as (mid & Htext & Hstrips).
  destruct (renderLoop input 0 []) as [parts lastIndex]. cbn [fst snd] in *.
  change (parts_text [] ++ mid) with mid in Htext.
  change (drop 0 input) with input in Hstrips.
  match goal with
  | |- context [if 0 <? length ?ps then _ else _] =>
      assert (Hps : parts_text ps = mid ++ drop lastIndex input);
      [|destruct (0 <? length ps)]
  end.
  - destruct (Nat.ltb_spec lastIndex (length input)).
    + now rewrite parts_text_snoc, Htext.
    + rewrite Htext, drop_ge by lia. now rewrite app_nil_r.
  - cbn [rendered_text]. fold (parts_text
      (if lastIndex <? length input
       then parts ++ [text (drop lastIndex input)] else parts)).
    rewrite Hps. apply (Hstrips _ (strips_refl _)).
  - apply strips_refl.
Qed.

Lemma span_not_star_stop (g rest : jsstring) (d : char16) :
  star_free g -> isStar d = true ->
  span_not_star (g ++ d :: rest) = (g, d :: rest).
Proof.
  intros Hg Hd. induction Hg as [|c g Hc _ IH]; cbn [app].
  - cbn. now rewrite Hd.
  - cbn. now rewrite Hc, IH.
Qed.

(** The pattern matches wherever a bold span begins, and matches that
    span. *)
Lemma match_here_complete (i : nat) (w g rest : jsstring) :
  bold_span w g ->
  exists m, match_here i (w ++ rest) = Some m
            /\ whole m = w /\ boldText m = Some g.
Proof.
  destruct 1 as [c1 c2 d1 d2 g H1 H2 H3 H4 Hne Hg | c1 d1 g H1 H3 Hne Hg];
    unfold is_star in *;
    (destruct g as [|c g']; [now destruct Hne|]);
    assert (Hc : isStar c = false) by (now apply Forall_cons_1 in Hg as [? _]).
  - exists {| index := i; whole := c1 :: c2 :: (c :: g') ++ [d1; d2];
              group1 := Some (c :: g'); group2 := None |}.
    split; [|split; reflexivity].
    unfold match_here, alt1. cbn [app]. rewrite H1, H2. cbn [andb].
    rewrite <- app_assoc. cbn [app].
    pose proof (span_not_star_stop (c :: g') (d2 :: rest) d1 Hg H3) as Hsp.
    cbn [app] in Hsp. rewrite Hsp. cbn [truthy andb].
    now rewrite H3, H4.
  - exists {| index := i; whole := c1 :: (c :: g') ++ [d1];
              group1 := None; group2 := Some (c :: g') |}.
    split; [|split; reflexivity].
    unfold match_here, alt1. cbn [app]. rewrite H1, Hc. cbn [andb].
    unfold alt2. rewrite H1. rewrite <- app_assoc. cbn [app].
    pose proof (span_not_star_stop (c :: g') rest d1 Hg H3) as Hsp.
    cbn [app] in Hsp. rewrite Hsp. cbn [truthy andb]. now rewrite H3.
Qed.

Lemma match_here_none (i : nat) (s : jsstring) :
  match_here i s = None -> ~ starts_bold s.
Proof.
  intros Hnone (w & g & rest & Hb & ->).
  destruct (match_here_complete i w g rest Hb) as (m & Hm & _). congruence.
Qed.

Lemma bold_prefix_unique (w1 g1 r1 w2 g2 r2 : jsstring) :
  bold_span w1 g1 -> bold_span w2 g2 -> w1 ++ r1 = w2 ++ r2 ->
  w1 = w2 /\ g1 = g2 /\ r1 = r2.
Proof.
  intros H1 H2 Heq.
  destruct (match_here_complete 0 w1 g1 r1 H1) as (m1 & Hm1 & Hw1 & Hg1).
  destruct (match_here_complete 0 w2 g2 r2 H2) as (m2 & Hm2 & Hw2 & Hg2).
  rewrite Heq, Hm2 in Hm1. injection Hm1 as Hm.
  assert (Hw : w1 = w2) by congruence.
  assert (Hg : g1 = g2) by congruence.
  split; [exact Hw|]. split; [exact Hg|].
  rewrite Hw in Heq. now apply app_inv_head in Heq.
Qed.

Lemma bold_span_nonempty (w g : jsstring) : bold_span w g -> w <> [].
Proof. destruct 1; discriminate. Qed.

(** The stripped text is determined by the input. *)
Lemma unmarks_functional (s o1 : jsstring) :
  unmarks s o1 -> forall o2, unmarks s o2 -> o1 = o2.
Proof.
  induction 1 as [|c s o1 Hno _ IH|w g s o1 Hb _ IH]; intros o2 H2.
  - remember [] as x eqn:Ex. destruct H2 as [|c s o2 _ _|w g s o2 Hb _].
    + reflexivity.
    + discriminate.
    + apply bold_span_nonempty in Hb. destruct w; [now destruct Hb|].
      discriminate.
  - remember (c :: s) as x eqn:Ex.
    destruct H2 as [|c' s' o2 _ H2|w g s' o2 Hb _].
    + discriminate.
    + injection Ex as -> ->. f_equal. now apply IH.
    + destruct Hno. exists w, g, s'. now split.
  - remember (w ++ s) as x eqn:Ex.
    destruct H2 as [|c' s' o2 Hno _|w' g' s' o2 Hb' H2].
    + apply bold_span_nonempty in Hb. destruct w; [now destruct Hb|].
      discriminate.
    + destruct Hno. exists w, g, s. now split.
    + destruct (bold_prefix_unique _ _ _ _ _ _ Hb' Hb Ex) as (-> & -> & ->).
      f_equal. now apply IH.
Qed.

(** The search keeps the characters before the leftmost bold span, and
    keeps every character when there is no span. *)
Lemma search_unmarks (s : jsstring) : forall i : nat,
  match search i s with
  | Some m =>
    exists pre rest g,
      s = pre ++ whole m ++ rest /\ index m = i + length pre
      /\ boldText m = Some g
      /\ forall o, unmarks rest o -> unmarks s (pre ++ g ++ o)
  | None => unmarks s s
  end.
Proof.
  induction s as [|c s IH]; intros i; cbn [search].
  - destruct (match_here i []) as [m|] eqn:E; [|constructor].
    apply match_here_spec in E as (Hi & [rest Hs] & g & Hb & Hg).
    exists [], rest, g. cbn [app length]. repeat split; auto; [lia|].
    intros o Ho. rewrite Hs. now constructor.
  - destruct (match_here i (c :: s)) as [m|] eqn:E.
    + pose proof E as E'.
      apply match_here_spec in E as (Hi & [rest Hs] & g & Hb & Hg).
      exists [], rest, g. cbn [app length]. repeat split; auto; [lia|].
      intros o Ho. rewrite Hs. now constructor.
    + apply match_here_none in E. specialize (IH (S i)).
      destruct (search (S i) s) as [m|].
      * destruct IH as (pre & rest & g & Hs & Hi & Hg & Hun).
        exists (c :: pre), rest, g. cbn [app length].
        repeat split; auto; [now rewrite Hs|lia|].
        intros o Ho. constructor; [exact E|]. now apply Hun.
      * now constructor.
Qed.

Lemma exec_unmarks (input : jsstring) (lastIndex : nat) :
  match exec input lastIndex with
  | Some m =>
    exists g,
      boldText m = Some g
      /\ forall o,
           unmarks (drop (index m + length (whole m)) input) o ->
           unmarks (drop lastIndex input)
                   (substring input lastIndex (index m) ++ g ++ o)
  | None => unmarks (drop lastIndex input) (drop lastIndex input)
  end.
Proof.
  unfold exec. destruct (Nat.ltb_spec (length input) lastIndex) as [Hlt|Hle].
  - rewrite drop_ge by lia. constructor.
  - pose proof (search_unmarks (drop lastIndex input) lastIndex) as H.
    destruct (search lastIndex (drop lastIndex input)) as [m|]; [|exact H].
    destruct H as (pre & rest & g & Hd & Hi & Hg & Hun).
    exists g. split; [exact Hg|].
    assert (Hsub : substring input lastIndex (index m) = pre).
    { unfold substring. rewrite Hd, Hi.
      replace (lastIndex + length pre - lastIndex) with (length pre) by lia.
      now rewrite take_app_length. }
    assert (Hrest : drop (index m + length (whole m)) input = rest).
    { rewrite Hi.
      replace (lastIndex + length pre + length (whole m))
        with (lastIndex + (length pre + length (whole m))) by lia.
      rewrite <- drop_drop, Hd, app_assoc.
      rewrite <- length_app. now rewrite drop_app_length. }
    rewrite Hsub, Hrest. exact Hun.
Qed.

(** The loop adds to [parts] the stripped text of the input between the
    entry and the exit values of [lastIndex]; what follows the exit
    value holds no bold span. *)
Lemma renderLoop_unmarks (input : jsstring) (lastIndex : nat)
    (parts : list Part) :
  exists mid : jsstring,
    parts_text (fst (renderLoop input lastIndex parts))
    = parts_text parts ++ mid
    /\ unmarks (drop lastIndex input)
               (mid ++ drop (snd (renderLoop input lastIndex parts)) input).
Proof.
  funelim (renderLoop input lastIndex parts).
  - destruct H as (mid & Htext & Hun).
    pose proof (exec_unmarks input lastIndex) as Hex. rewrite e in Hex.
    destruct Hex as (g & Hg & Hstep).
    destruct (exec_spec _ _ _ e) as (_ & _ & Hpre & _).
    exists (substring input lastIndex (index m) ++ g ++ mid). split.
    + rewrite Htext, parts_text_snoc, Hg. cbn [part_text].
      destruct (lastIndex <? index m) eqn:Hlt.
      * rewrite parts_text_snoc. cbn [part_text]. now rewrite <- !app_assoc.
      * rewrite (Hpre eq_refl). cbn [app]. now rewrite <- !app_assoc.
    + rewrite <- !app_assoc. now apply Hstep.
  - exists []. cbn. rewrite app_nil_r. split; [reflexivity|].
    pose proof (exec_unmarks input lastIndex) as Hex. now rewrite e in Hex.
Qed.

Lemma unmarks_nil_inv (s : jsstring) : unmarks s [] -> s = [].
Proof.
  intros H. remember [] as o eqn:Eo.
  destruct H as [|c s o _ _|w g s o Hb _]; [reflexivity|discriminate|].
  destruct Hb; destruct g; try discriminate; congruence.
Qed.

Lemma renderText_unmarks (input : jsstring) :
  unmarks input (rendered_text (renderText input)).
Proof.
  unfold renderText.
  destruct (renderLoop_unmarks input 0 []) as (mid & Htext & Hun).
  destruct (renderLoop input 0 []) as [parts lastIndex]. cbn [fst snd] in *.
  change (parts_text [] ++ mid) with mid in Htext.
  change (drop 0 input) with input in Hun.
  match goal with
  | |- context [if 0 <? length ?ps then _ else _] =>
      assert (Hps : parts_text ps = mid ++ drop lastIndex input);
      [|destruct (0 <? length ps) eqn:Elen]
  end.
  - destruct (Nat.ltb_spec lastIndex (length input)).
    + now rewrite parts_text_snoc, Htext.
    + rewrite Htext, drop_ge by lia. now rewrite app_nil_r.
  - cbn [rendered_text]. fold (parts_text
      (if lastIndex <? length input
       then parts ++ [text (drop lastIndex input)] else parts)).
    now rewrite Hps.
  - cbn [rendered_text].
    match type of Elen with
    | (0 <? length ?ps) = false =>
        assert (Hnil : ps = []) by (destruct ps; [reflexivity|discriminate])
    end.
    rewrite Hnil in Hps. cbn in Hps. rewrite <- Hps in Hun.
    rewrite (unmarks_nil_inv _ Hun). constructor.
Qed.

Lemma starts_bold_star (c : char16) (s : jsstring) :
  starts_bold (c :: s) -> isStar c = true.
Proof.
  intros (w & g & rest & Hb & Hs). unfold is_star in *.
  destruct Hb; cbn in Hs; injection Hs as -> _; assumption.
Qed.

Lemma unmarks_star_free_prefix (pre s o : jsstring) :
  star_free pre -> unmarks s o -> unmarks (pre ++ s) (pre ++ o).
Proof.
  intros Hpre H. induction Hpre as [|c pre Hc _ IH]; cbn [app]; [exact H|].
  constructor; [|exact IH]. intros Hs. apply starts_bold_star in Hs. congruence.
Qed.

(** C10: on an input without stars [renderText] returns the input text
    itself (as the single text node, or as the empty string).  On every
    input the text of the emitted parts is the input with the bold
    markers removed: reading from the left, every bold span met loses
    its markers and keeps its text, every other character is kept, once
    and in place, and nothing is added; that text is the only one so
    obtained.  In particular a bold span that follows text without
    stars is shown as that text, the span's own text, and the rendering
    of what follows the span. *)
Theorem renderText_keeps_the_text :
  (forall input : jsstring,
     star_free input ->
     renderText input
     = match input with [] => plain [] | _ :: _ => nodes [text input] end
     /\ rendered_text (renderText input) = input)
  /\ (forall input : jsstring,
        let shown := rendered_text (renderText input) in
        unmarks input shown
        /\ (forall o, unmarks input o -> o = shown)
        /\ strips input shown
        /\ List.filter not_star shown = List.filter not_star input
        /\ shown `sublist_of` input)
  /\ (forall pre w g post : jsstring,
        star_free pre -> bold_span w g ->
        rendered_text (renderText (pre ++ w ++ post))
        = pre ++ g ++ rendered_text (renderText post)).
Proof.
  split; [|split].
  - intros input H. rewrite (renderText_star_free input H).
    split; [reflexivity|]. destruct input; cbn; [reflexivity|].
    now rewrite app_nil_r.
  - intros input shown. pose proof (renderText_unmarks input) as Hun.
    pose proof (renderText_strips input) as Hst.
    split; [exact Hun|]. split.
    + intros o Ho. symmetry. exact (unmarks_functional _ _ Hun o Ho).
    + split; [exact Hst|].
      split; [now apply strips_filter|now apply strips_sublist].
  - intros pre w g post Hpre Hb.
    apply (unmarks_functional _ _ (renderText_unmarks _)).
    apply unmarks_star_free_prefix; [exact Hpre|].
    constructor; [exact Hb|]. apply renderText_unmarks.
Qed.

Lemma renderText_keeps_the_text_witness :
  star_free (lit "plain text")
  /\ renderText (lit "plain text") = nodes [text (lit "plain text")]
  /\ bold_span (lit "**this**") (lit "this")
  /\ rendered_text (renderText (lit "see " ++ lit "**this**" ++ lit " and *that*"))
     = lit "see " ++ lit "this" ++ lit " and that".
Proof.
  assert (H : star_free (lit "plain text")) by (repeat constructor).
  assert (Hsee : star_free (lit "see ")) by (repeat constructor).
  assert (Hb : bold_span (lit "**this**") (lit "this")).
  { apply (bold_double 42%N 42%N 42%N 42%N (lit "this")); try reflexivity;
      [discriminate|repeat constructor]. }
  split; [exact H|]. split.
  - exact (proj1 (proj1 renderText_keeps_the_text (lit "plain text") H)).
  - split; [exact Hb|].
    rewrite (proj2 (proj2 renderText_keeps_the_text)
               (lit "see ") (lit "**this**") (lit "this") (lit " and *that*")
               Hsee Hb).
    reflexivity.
Defined.

End RenderTextProperties.

(** * Further properties of the chat page *)

Section ChatHistory.

Import Chat.

Lemma step_loading_ok (p : Page) (e : Event) :
  loading_ok p -> loading_ok (fst (step p e)).
Proof.
  unfold loading_ok. intros H. destruct e as [s|now|out now|]; cbn.
  - exact H.
  - unfold sendMessage_start. destruct (rejected (state p)); cbn; [exact H|].
    split; [discriminate|reflexivity].
  - destruct (pending p) as [captured|] eqn:E; cbn; [|now rewrite E].
    rewrite settle_isLoading. split; [discriminate|]. intros Hn. now destruct Hn.
  - exact H.
Qed.

Lemma run_loading_ok (es : list Event) : forall p : Page,
  loading_ok p -> loading_ok (fst (run p es)).
Proof.
  induction es as [|e es IH]; intros p H; cbn; [exact H|].
  pose proof (step_loading_ok p e H) as H1.
  destruct (step p e) as [p1 r1]. cbn [fst] in H1.
  specialize (IH p1 H1). now destruct (run p1 es).
Qed.

(** X1: in every state the chat page reaches, [isLoading] is true
    exactly when a call of [sendMessage] is in flight; New Chat does not
    lower the flag of a call that has not settled. *)
Theorem loading_iff_call_in_flight (es : list Event) :
  let p := fst (run start es) in
  isLoading (state p) = true <-> pending p <> None.
Proof.
  apply (run_loading_ok es start). unfold loading_ok. cbn.
  split; [discriminate|]. intros H. now destruct H.
Qed.

Lemma step_messages_prefix (p : Page) (e : Event) :
  e <> ev_reset ->
  messages (state p) `prefix_of` messages (state (fst (step p e))).
Proof.
  intros Hne. destruct e as [s|now|out now|]; cbn.
  - reflexivity.
  - unfold sendMessage_start. destruct (rejected (state p)); cbn;
      [reflexivity|]. now apply prefix_app_r.
  - destruct (pending p) as [captured|]; cbn; [|reflexivity].
    rewrite settle_messages. now apply prefix_app_r.
  - congruence.
Qed.

(** X2: without New Chat the history only grows at its end: whatever
    the events, the messages shown before are a prefix of the messages
    shown after; no message is edited, removed or reordered. *)
Theorem history_is_append_only (es : list Event) : forall p : Page,
  no_reset es ->
  messages (state p) `prefix_of` messages (state (fst (run p es))).
Proof.
  unfold no_reset.
  induction es as [|e es IH]; intros p Hall; cbn; [reflexivity|].
  apply Forall_cons_1 in Hall as [He Hes].
  pose proof (step_messages_prefix p e He) as H1.
  destruct (step p e) as [p1 r1]. cbn [fst] in H1.
  specialize (IH p1 Hes). destruct (run p1 es) as [p2 r2]. cbn [fst] in *.
  now transitivity (messages (state p1)).
Qed.

Lemma history_is_append_only_witness :
  no_reset [ev_input (lit "hello"); ev_send 1; ev_settle (fails_with 500) 2]
  /\ messages (state start)
     `prefix_of`
     messages (state (fst (run start
       [ev_input (lit "hello"); ev_send 1; ev_settle (fails_with 500) 2]))).
Proof.
  assert (H : no_reset [ev_input (lit "hello"); ev_send 1;
                        ev_settle (fails_with 500) 2])
    by (repeat constructor; discriminate).
  split; [exact H|]. exact (history_is_append_only _ start H).
Defined.

Lemma answered_snoc (n : nat) :
  answered n ++ [user; assistant] = answered (S n).
Proof. induction n as [|n IH]; cbn; [reflexivity|]. now rewrite IH. Qed.

Lemma step_roles_ok (p : Page) (e : Event) :
  e <> ev_reset -> loading_ok p -> roles_ok p -> roles_ok (fst (step p e)).
Proof.
  unfold roles_ok, loading_ok. intros Hne Hl [n Hn].
  destruct e as [s|now|out now|]; cbn.
  - now exists n.
  - unfold sendMessage_start, rejected.
    destruct (isLoading (state p)) eqn:El;
      [rewrite orb_true_r; cbn; exists n; now rewrite El|].
    rewrite orb_false_r.
    destruct (negb _); cbn; [exists n; now rewrite El|].
    exists n. rewrite List.map_app, Hn, app_nil_r. reflexivity.
  - destruct (pending p) as [captured|] eqn:E; cbn; [|now exists n].
    rewrite settle_messages, settle_isLoading.
    assert (El : isLoading (state p) = true) by (apply Hl; discriminate).
    rewrite El in Hn. exists (S n).
    rewrite List.map_app, Hn, app_nil_r, <- app_assoc. apply answered_snoc.
  - congruence.
Qed.

(** X3: without New Chat, in every state the page reaches from its
    first render the roles of the history alternate, user first: they
    are those of some number of answered exchanges, followed by one
    more user message exactly while a call is in flight. *)
Theorem roles_alternate (es : list Event) :
  no_reset es ->
  let p := fst (run start es) in
  exists n : nat,
    List.map Chat.role (messages (state p))
    = answered n ++ (if isLoading (state p) then [user] else []).
Proof.
  unfold no_reset. intros Hall.
  assert (H : forall es p, Forall (fun e => e <> ev_reset) es ->
              loading_ok p -> roles_ok p -> roles_ok (fst (run p es))).
  { clear. induction es as [|e es IH]; intros p Hall Hl Hr; cbn; [exact Hr|].
    apply Forall_cons_1 in Hall as [He Hes].
    pose proof (step_roles_ok p e He Hl Hr) as H1.
    pose proof (step_loading_ok p e Hl) as H2.
    destruct (step p e) as [p1 r1]. cbn [fst] in H1, H2.
    specialize (IH p1 Hes H2 H1). now destruct (run p1 es). }
  apply (H es start Hall).
  - unfold loading_ok. cbn. split; [discriminate|]. intros Hn. now destruct Hn.
  - now exists 0.
Qed.

Lemma roles_alternate_witness :
  no_reset [ev_input (lit "hello"); ev_send 1; ev_settle (answers greeting) 2;
            ev_input (lit "more"); ev_send 3]
  /\ exists n : nat,
       List.map Chat.role (messages (state (fst (run start
         [ev_input (lit "hello"); ev_send 1; ev_settle (answers greeting) 2;
          ev_input (lit "more"); ev_send 3]))))
       = answered n ++ [user].
Proof.
  assert (H : no_reset [ev_input (lit "hello"); ev_send 1;
                        ev_settle (answers greeting) 2;
                        ev_input (lit "more"); ev_send 3])
    by (repeat constructor; discriminate).
  split; [exact H|]. exact (roles_alternate _ H).
Defined.

Lemma user_texts_app (h1 h2 : list Chat.Message) :
  user_texts (h1 ++ h2) = user_texts h1 ++ user_texts h2.
Proof. unfold user_texts. now rewrite List.filter_app, List.map_app. Qed.

Lemma step_user_texts (p : Page) (e : Event) :
  e <> ev_reset ->
  user_texts (messages (state (fst (step p e))))
  = user_texts (messages (state p)) ++ List.map sent_text (snd (step p e)).
Proof.
  intros Hne. destruct e as [s|now|out now|]; cbn -[user_texts].
  - now rewrite app_nil_r.
  - unfold sendMessage_start. destruct (rejected (state p)); cbn -[user_texts];
      [now rewrite app_nil_r|]. now rewrite user_texts_app.
  - destruct (pending p) as [captured|]; cbn -[user_texts];
      [|now rewrite app_nil_r].
    rewrite settle_messages, user_texts_app. cbn. now rewrite app_nil_r.
  - congruence.
Qed.

(** X4: without New Chat, the user messages added to the history are,
    one for one and in order, the [user_message] texts of the requests
    issued: what is shown as sent is what was sent, once each. *)
Theorem requests_match_user_messages (es : list Event) : forall p : Page,
  no_reset es ->
  user_texts (messages (state (fst (run p es))))
  = user_texts (messages (state p)) ++ List.map sent_text (snd (run p es)).
Proof.
  unfold no_reset.
  induction es as [|e es IH]; intros p Hall; cbn; [now rewrite app_nil_r|].
  apply Forall_cons_1 in Hall as [He Hes].
  pose proof (step_user_texts p e He) as H1.
  destruct (step p e) as [p1 r1]. cbn [fst snd] in H1.
  specialize (IH p1 Hes). destruct (run p1 es) as [p2 r2]. cbn [fst snd] in *.
  now rewrite IH, H1, List.map_app, app_assoc.
Qed.

Lemma requests_match_user_messages_witness :
  no_reset (flat_map turn_events two_turns)
  /\ List.map sent_text (snd (run start (flat_map turn_events two_turns)))
     = [lit "hello"; lit "refund?"].
Proof.
  assert (H : no_reset (flat_map turn_events two_turns))
    by (repeat constructor; discriminate).
  split; [exact H|].
  pose proof (requests_match_user_messages _ start H) as W.
  cbn [app user_texts start state initial messages List.filter List.map] in W.
  rewrite <- W. reflexivity.
Defined.

Lemma step_capture_ok (p : Page) (e : Event) :
  capture_ok p -> capture_ok (fst (step p e)).
Proof.
  unfold capture_ok. intros (Hwf & Hnone & Hne).
  split; [now apply step_sessionId_wf|].
  destruct e as [s|now|out now|]; cbn.
  - now split.
  - unfold sendMessage_start. destruct (rejected (state p)); cbn;
      [now split|]. split.
    + intros H. now injection H.
    + intros H. injection H as H. now destruct Hwf.
  - destruct (pending p) as [captured|] eqn:E; cbn.
    + split; discriminate.
    + rewrite E. split; discriminate.
  - split; [reflexivity|exact Hne].
Qed.

Lemma run_capture_ok (es : list Event) : forall p : Page,
  capture_ok p -> capture_ok (fst (run p es)).
Proof.
  induction es as [|e es IH]; intros p H; cbn; [exact H|].
  pose proof (step_capture_ok p e H) as H1.
  destruct (step p e) as [p1 r1]. cbn [fst] in H1.
  specialize (IH p1 H1). now destruct (run p1 es).
Qed.

Lemma start_capture_ok : capture_ok start.
Proof. unfold capture_ok, sessionId_wf. cbn. repeat split; discriminate. Qed.

Lemma step_keeps_sessionId (p : Page) (e : Event) (s : jsstring) :
  e <> ev_reset -> capture_ok p -> sessionId (state p) = Some s ->
  sessionId (state (fst (step p e))) = Some s.
Proof.
  unfold capture_ok. intros Hne (Hwf & Hnone & Hcap) Hs.
  destruct e as [t|now|out now|]; cbn.
  - exact Hs.
  - unfold sendMessage_start. now destruct (rejected (state p)).
  - destruct (pending p) as [[[|c x]|]|] eqn:E; cbn; try exact Hs.
    + now destruct Hcap.
    + unfold sendMessage_settle. now destruct (awaited out).
    + rewrite (Hnone eq_refl) in Hs. discriminate.
  - congruence.
Qed.

(** X5: once a session id is stored, no later response replaces it: in
    every state the page reaches from its first render, a stored
    [sessionId] stays the same over every further sequence of events
    without New Chat, whatever [session_id] the responses carry. *)
Theorem session_id_is_sticky (es1 es2 : list Event) (s : jsstring) :
  let p := fst (run start es1) in
  sessionId (state p) = Some s ->
  no_reset es2 ->
  sessionId (state (fst (run p es2))) = Some s.
Proof.
  intros p Hs Hall.
  assert (Hc : capture_ok p) by (apply run_capture_ok, start_capture_ok).
  clearbody p. revert p Hs Hc. unfold no_reset in Hall.
  induction es2 as [|e es IH]; intros p Hs Hc; cbn; [exact Hs|].
  apply Forall_cons_1 in Hall as [He Hes].
  pose proof (step_keeps_sessionId p e s He Hc Hs) as H1.
  pose proof (step_capture_ok p e Hc) as H2.
  destruct (step p e) as [p1 r1]. cbn [fst] in H1, H2.
  specialize (IH Hes p1 H1 H2). now destruct (run p1 es).
Qed.

Lemma session_id_is_sticky_witness :
  sessionId (state (fst (run start (flat_map turn_events two_turns))))
  = Some (lit "s-1")
  /\ sessionId (state (fst (run
       (fst (run start (flat_map turn_events two_turns)))
       [ev_input (lit "again"); ev_send 5; ev_settle (answers renamed) 6])))
     = Some (lit "s-1").
Proof.
  split; [reflexivity|].
  apply (session_id_is_sticky (flat_map turn_events two_turns)
           [ev_input (lit "again"); ev_send 5; ev_settle (answers renamed) 6]
           (lit "s-1") eq_refl).
  repeat constructor; discriminate.
Defined.

End ChatHistory.

Section ChatExchange.

Import Chat ChatControls.

Lemma trimStart_split (s : jsstring) :
  exists ws, s = ws ++ trimStart s /\ white ws
             /\ match trimStart s with
                | c :: _ => isWhiteSpace c = false
                | [] => True
                end.
Proof.
  unfold white. induction s as [|c s (ws & Hs & Hws & Hhead)]; cbn.
  - exists []. repeat split. constructor.
  - destruct (isWhiteSpace c) eqn:Ec.
    + exists (c :: ws). cbn. rewrite <- Hs. repeat split; [|exact Hhead].
      now constructor.
    + exists []. repeat split; [constructor|exact Ec].
Qed.

Lemma trimEnd_split (s : jsstring) :
  exists ws, s = trimEnd s ++ ws /\ white ws
             /\ match rev (trimEnd s) with
                | c :: _ => isWhiteSpace c = false
                | [] => True
                end.
Proof.
  unfold trimEnd. destruct (trimStart_split (rev s)) as (ws & Hs & Hws & Hhead).
  exists (rev ws). rewrite rev_involutive. repeat split.
  - rewrite <- rev_app_distr, <- Hs. now rewrite rev_involutive.
  - unfold white in *. now apply Forall_rev.
  - exact Hhead.
Qed.

(** The shape of [trim]: the white space at both ends goes, the rest
    stays, and what stays neither starts nor ends with white space. *)
Lemma trim_split (s : jsstring) :
  exists ws1 ws2,
    s = ws1 ++ trim s ++ ws2 /\ white ws1 /\ white ws2
    /\ (trim s <> [] ->
        (exists c rest, trim s = c :: rest /\ isWhiteSpace c = false)
        /\ (exists front c, trim s = front ++ [c] /\ isWhiteSpace c = false)).
Proof.
  unfold trim.
  destruct (trimStart_split s) as (ws1 & Hs & Hws1 & Hhead).
  destruct (trimEnd_split (trimStart s)) as (ws2 & Ht & Hws2 & Hlast).
  exists ws1, ws2. split; [now rewrite <- Ht|]. split; [exact Hws1|].
  split; [exact Hws2|]. intros Hne. split.
  - destruct (trimEnd (trimStart s)) as [|c rest] eqn:E; [now destruct Hne|].
    exists c, rest. split; [reflexivity|].
    rewrite Ht in Hhead. exact Hhead.
  - destruct (rev (trimEnd (trimStart s))) as [|c front] eqn:E.
    + apply (f_equal (@rev _)) in E. rewrite rev_involutive in E.
      now destruct Hne.
    + exists (rev front), c. split; [|exact Hlast].
      apply (f_equal (@rev _)) in E. now rewrite rev_involutive in E.
Qed.

(** X6: the text of an accepted call, shown as the user message and
    sent as [user_message], is the input without the white space at its
    two ends: it is not empty, it neither starts nor ends with white
    space, and nothing else of the input is removed. *)
Theorem sent_message_is_trimmed (now : nat) (st st' : State)
    (req : Http.Request) :
  sendMessage_start now st = Some (st', req) ->
  exists m ws1 ws2 : jsstring,
    Http.body req
    = Some (requestBody m (sessionId st))
    /\ messages st'
       = messages st ++ [ {| Chat.role := user; Chat.content := m;
                             Chat.timestamp := now |} ]
    /\ inputMessage st = ws1 ++ m ++ ws2 /\ white ws1 /\ white ws2
    /\ (exists c rest, m = c :: rest /\ isWhiteSpace c = false)
    /\ (exists front c, m = front ++ [c] /\ isWhiteSpace c = false).
Proof.
  unfold sendMessage_start. destruct (rejected st) eqn:Hrej; [discriminate|].
  intros [= <- <-]. apply rejected_false in Hrej as [Hne _].
  destruct (trim_split (inputMessage st)) as (ws1 & ws2 & Hs & H1 & H2 & Hends).
  destruct (Hends Hne) as [Hhead Hlast].
  exists (trim (inputMessage st)), ws1, ws2. cbn. repeat split; auto.
Qed.

Lemma sent_message_is_trimmed_witness :
  exists (st' : State) (req : Http.Request),
    sendMessage_start 1 (setInputMessage (lit "  refund? ") initial)
    = Some (st', req)
    /\ exists m ws1 ws2 : jsstring,
         Http.body req = Some (requestBody m None)
         /\ lit "  refund? " = ws1 ++ m ++ ws2.
Proof.
  eexists _, _. split; [reflexivity|].
  destruct (sent_message_is_trimmed 1
              (setInputMessage (lit "  refund? ") initial) _ _ eq_refl)
    as (m & ws1 & ws2 & Hb & _ & Hs & _).
  exists m, ws1, ws2. split; [exact Hb|exact Hs].
Defined.

(** The page after one completed call from an idle page. *)
Lemma turn_page (p : Page) (t : Turn) :
  isLoading (state p) = false -> trim (typed t) <> [] ->
  exists st1 : State,
    fst (run p (turn_events t))
    = {| state := sendMessage_settle (sessionId (state p)) (settled_at t)
                    (outcome t) st1;
         pending := None |}
    /\ sessionId st1 = sessionId (state p).
Proof.
  intros Hidle Hne. unfold turn_events. cbn [run step].
  assert (Hrej : rejected (setInputMessage (typed t) (state p)) = false).
  { apply rejected_false. cbn. auto. }
  unfold sendMessage_start. cbn [state]. rewrite Hrej. cbn.
  eexists. split; reflexivity.
Qed.

(** X7: the first successful reply opens the session: from an idle
    page without a session id, a completed call whose response carries
    a non-empty [session_id] stores it, and the request of the next
    accepted call carries exactly that id. *)
Theorem first_reply_opens_session (p : Page) (t : Turn) (d : ChatResponse)
    (next : jsstring) (now : nat) :
  isLoading (state p) = false -> sessionId (state p) = None ->
  trim (typed t) <> [] -> succeeds (outcome t) d ->
  Chat.session_id d <> [] -> trim next <> [] ->
  let p' := fst (run p (turn_events t)) in
  sessionId (state p') = Some (Chat.session_id d)
  /\ snd (run p' [ev_input next; ev_send now])
     = [chatRequest (trim next) (Some (Chat.session_id d))].
Proof.
  intros Hidle Hnone Ht Hok Hd Hnext p'.
  destruct (turn_page p t Hidle Ht) as (st1 & Hp & Hs1). fold p' in Hp.
  apply awaited_resolves in Hok.
  assert (Hs : sessionId (state p') = Some (Chat.session_id d)).
  { rewrite Hp. cbn. unfold sendMessage_settle. rewrite Hok. cbn.
    rewrite Hnone. cbn.
    destruct (Chat.session_id d); [now destruct Hd|reflexivity]. }
  split; [exact Hs|].
  assert (Hrej : rejected (setInputMessage next (state p')) = false).
  { apply rejected_false. cbn. split; [exact Hnext|].
    rewrite Hp. cbn. apply settle_isLoading. }
  cbn [run step]. unfold sendMessage_start. cbn [state]. rewrite Hrej. cbn.
  now rewrite Hs.
Qed.

Lemma first_reply_opens_session_witness :
  succeeds (answers greeting) greeting
  /\ snd (run (fst (run start (turn_events
                 {| typed := lit "hello"; sent_at := 1;
                    outcome := answers greeting; settled_at := 2 |})))
              [ev_input (lit " more "); ev_send 3])
     = [chatRequest (lit "more") (Some (lit "s-1"))].
Proof.
  assert (H : succeeds (answers greeting) greeting).
  { eexists _, _. repeat split; reflexivity. }
  split; [exact H|].
  refine (proj2 (first_reply_opens_session start
    {| typed := lit "hello"; sent_at := 1;
       outcome := answers greeting; settled_at := 2 |}
    greeting (lit " more ") 3 eq_refl eq_refl _ H _ _));
    vm_compute; discriminate.
Defined.
(** X8: after a completed call the error banner and the history agree:
    [error] is empty exactly when the fetch succeeded, and otherwise it
    holds the very message the last assistant bubble reports. *)
Theorem error_banner_matches_reply (p : Page) (sent settled : nat)
    (out : Settled Response) :
  rejected (state p) = false ->
  let p' := fst (run p [ev_send sent; ev_settle out settled]) in
  match error (state p') with
  | None => exists d, succeeds out d
  | Some msg =>
    (forall d, ~ succeeds out d)
    /\ last (messages (state p'))
       = Some {| Chat.role := assistant;
                 Chat.content := lit "Sorry, I encountered an error: "
                                 ++ msg ++ lit ". Please try again.";
                 Chat.timestamp := settled |}
  end.
Proof.
  intros Hrej. cbn [run step]. unfold sendMessage_start. rewrite Hrej. cbn.
  unfold sendMessage_settle. destruct (awaited out) as [err|d] eqn:E; cbn.
  - split.
    + intros d Hd. apply awaited_resolves in Hd. congruence.
    + now rewrite last_snoc.
  - exists d. now apply awaited_resolves.
Qed.

Lemma error_banner_matches_reply_witness :
  rejected (setInputMessage (lit "hello") initial) = false
  /\ forall d, ~ succeeds (fails_with 503) d.
Proof.
  split; [reflexivity|].
  pose proof (error_banner_matches_reply
                {| state := setInputMessage (lit "hello") initial;
                   pending := None |} 1 2 (fails_with 503) eq_refl) as W.
  vm_compute in W. exact (proj1 W).
Defined.

(** X9: New Chat while a call is in flight does not cancel it: when the
    fetch settles, its reply is appended to the emptied history, which
    then consists of that assistant message alone, and if the call was
    started without a session id the id of its response is stored. *)
Theorem reply_after_new_chat (p : Page) (sent settled : nat)
    (out : Settled Response) :
  rejected (state p) = false ->
  let p' := fst (run p [ev_send sent; ev_reset; ev_settle out settled]) in
  messages (state p')
  = [ {| Chat.role := assistant; Chat.content := reply out;
         Chat.timestamp := settled |} ]
  /\ isLoading (state p') = false
  /\ (forall d, sessionId (state p) = None -> succeeds out d ->
                Chat.session_id d <> [] ->
                sessionId (state p') = Some (Chat.session_id d)).
Proof.
  intros Hrej. cbn [run step]. unfold sendMessage_start. rewrite Hrej. cbn.
  rewrite settle_messages, settle_isLoading. cbn.
  split; [reflexivity|]. split; [reflexivity|].
  intros d Hnone Hok Hd. apply awaited_resolves in Hok.
  unfold sendMessage_settle. rewrite Hok. cbn. rewrite Hnone. cbn.
  destruct (Chat.session_id d); [now destruct Hd|reflexivity].
Qed.

Lemma reply_after_new_chat_witness :
  rejected (setInputMessage (lit "hello") initial) = false
  /\ List.map Chat.content (messages (state (fst (run
        {| state := setInputMessage (lit "hello") initial; pending := None |}
        [ev_send 1; ev_reset; ev_settle (answers greeting) 2]))))
     = [lit "Hi there"].
Proof.
  split; [reflexivity|].
  rewrite (proj1 (reply_after_new_chat
                    {| state := setInputMessage (lit "hello") initial;
                       pending := None |} 1 2 (answers greeting) eq_refl)).
  reflexivity.
Defined.

(** X10: the Send button is disabled exactly when a call of
    [sendMessage] would return at its guard, and a key press issues a
    request only if it is Enter without Shift on a page whose Send
    button is enabled. *)
Theorem send_controls_share_the_guard (p : Page) (now : nat)
    (e : KeyboardEvent) :
  (sendDisabled (state p) = true <-> step p (ev_send now) = (p, []))
  /\ (snd (handleKeyPress e now p) <> [] ->
      key e = lit "Enter" /\ shiftKey e = false
      /\ sendDisabled (state p) = false).
Proof.
  assert (Hsame : sendDisabled (state p) = rejected (state p))
    by (unfold sendDisabled, rejected; apply orb_comm).
  assert (Hstep : rejected (state p) = true <-> step p (ev_send now) = (p, [])).
  { cbn. unfold sendMessage_start. destruct (rejected (state p)).
    - split; reflexivity.
    - split; [discriminate|]. intros H. injection H as _ H. discriminate. }
  split; [now rewrite Hsame|].
  unfold handleKeyPress. destruct (JS.eqb (key e) (lit "Enter")) eqn:Ek; cbn.
  - destruct (shiftKey e); cbn; [intros H; now destruct H|].
    intros Hreq. split; [now apply JS_eqb_eq|]. split; [reflexivity|].
    rewrite Hsame. destruct (rejected (state p)) eqn:Hrej; [|reflexivity].
    unfold sendMessage_start in Hreq. rewrite Hrej in Hreq. now destruct Hreq.
  - intros H. now destruct H.
Qed.

Lemma send_controls_share_the_guard_witness :
  snd (handleKeyPress {| key := lit "Enter"; shiftKey := false |} 1
         {| state := setInputMessage (lit "hello") initial; pending := None |})
  <> []
  /\ sendDisabled (setInputMessage (lit "hello") initial) = false.
Proof.
  assert (H : snd (handleKeyPress {| key := lit "Enter"; shiftKey := false |} 1
                     {| state := setInputMessage (lit "hello") initial;
                        pending := None |}) <> [])
    by (vm_compute; discriminate).
  split; [exact H|].
  exact (proj2 (proj2 (proj2 (send_controls_share_the_guard _ 1 _) H))).
Defined.

End ChatExchange.

(** * Further properties of the admin dashboard *)

Section DashboardState.

Import Manage.

Variable toLowerCase : jsstring -> jsstring.

Lemma manage_awaited_resolves {A : Type} (what : jsstring)
    (out : Settled (Manage.Response A)) (data : A) :
  Manage.awaited what out = resolves data <-> fetched out data.
Proof.
  unfold Manage.awaited, fetched. split.
  - destruct out as [e|r]; [discriminate|].
    destruct (Http.ok (Manage.resp_status r)) eqn:Hok; cbn; [|discriminate].
    intros H. now exists r.
  - intros (r & -> & Hok & Hj). now rewrite Hok.
Qed.

(** X11: a refresh either replaces the list or leaves it alone: when
    the fetch succeeds, [conversations] is the fetched list and
    [filteredConversations] its selection under the filters in force;
    when it fails in any way, both lists are kept as they were and an
    error message is set.  Loading ends in both cases. *)
Theorem refresh_replaces_or_keeps
    (out : Settled (Manage.Response (list Conversation))) (st : Manage.State) :
  let st' := fetchConversations_settle toLowerCase out st in
  Manage.isLoading st' = false
  /\ (forall data, fetched out data ->
        conversations st' = data
        /\ filteredConversations st'
           = applyFilters toLowerCase data (searchTerm st) (statusFilter st)
        /\ Manage.error st' = Manage.error st)
  /\ ((forall data, ~ fetched out data) ->
        conversations st' = conversations st
        /\ filteredConversations st' = filteredConversations st
        /\ exists msg, Manage.error st' = Some msg).
Proof.
  unfold fetchConversations_settle.
  destruct (Manage.awaited _ out) as [err|data] eqn:E; cbn.
  - split; [reflexivity|]. split.
    + intros data Hd. apply (manage_awaited_resolves
        (lit "Failed to fetch conversations: ")) in Hd. congruence.
    + intros _. repeat split. eauto.
  - split; [reflexivity|]. split.
    + intros data' Hd. apply (manage_awaited_resolves
        (lit "Failed to fetch conversations: ")) in Hd.
      assert (data' = data) by congruence. subst. auto.
    + intros Hno. apply manage_awaited_resolves in E. now destruct (Hno data).
Qed.

Lemma filter_idem {A : Type} (p : A -> bool) (l : list A) :
  List.filter p (List.filter p l) = List.filter p l.
Proof.
  rewrite filter_filter. apply List.filter_ext. intros x. now destruct (p x).
Qed.

(** X12: the two filters compose: no status filter and no search term
    give the whole list; filtering twice is filtering once; and the
    selection under both filters is the search applied to the status
    selection, and the status filter applied to the search result. *)
Theorem filters_compose (cs : list Conversation) (term : jsstring)
    (f : StatusFilter) :
  applyFilters toLowerCase cs [] all = cs
  /\ applyFilters toLowerCase (applyFilters toLowerCase cs term f) term f
     = applyFilters toLowerCase cs term f
  /\ applyFilters toLowerCase cs term f
     = applyFilters toLowerCase (applyFilters toLowerCase cs [] f) term all
  /\ applyFilters toLowerCase cs term f
     = applyFilters toLowerCase (applyFilters toLowerCase cs term all) [] f.
Proof.
  split; [reflexivity|]. rewrite !applyFilters_filter. split.
  - apply filter_idem.
  - rewrite !filter_filter. split; apply List.filter_ext; intros conv;
      unfold selectedb; cbn [truthy negb orb StatusFilter_eqb];
      rewrite ?andb_true_r; [reflexivity|].
    apply andb_comm.
Qed.

Lemma step_modal_ok (st : Manage.State) (e : Manage.Event) :
  modal_ok st -> modal_ok (fst (Manage.step toLowerCase st e)).
Proof.
  unfold modal_ok. intros H.
  destruct e as [| |row|s|f| |out|out]; cbn.
  - exact H.
  - destruct (Manage.isLoading st); exact H.
  - destruct (Manage.isLoading st && _); [exact H|].
    destruct (filteredConversations st !! row); exact H.
  - unfold setSearchTerm. destruct (JS.eqb s (searchTerm st)); exact H.
  - unfold setStatusFilter.
    destruct (StatusFilter_eqb f (statusFilter st)); exact H.
  - split; [discriminate|]. intros Hn. now destruct Hn.
  - unfold fetchConversations_settle.
    destruct (Manage.awaited _ out); exact H.
  - unfold fetchConversationDetail_settle.
    destruct (Manage.awaited _ out); cbn; [exact H|].
    split; [discriminate|reflexivity].
Qed.

(** X13: in every state the dashboard reaches, the detail modal is up
    exactly when a conversation is selected: a successful detail fetch
    sets both, closing clears both, and a failed detail fetch changes
    neither. *)
Theorem modal_shows_the_selected_conversation (es : list Manage.Event) :
  let st := fst (Manage.run toLowerCase Manage.initial es) in
  showModal st = true <-> selectedConversation st <> None.
Proof.
  assert (H : forall es st, modal_ok st ->
              modal_ok (fst (Manage.run toLowerCase st es))).
  { clear. induction es as [|e es IH]; intros st Hok; cbn; [exact Hok|].
    pose proof (step_modal_ok st e Hok) as H1.
    destruct (Manage.step toLowerCase st e) as [st1 r1]. cbn [fst] in H1.
    specialize (IH st1 H1). now destruct (Manage.run toLowerCase st1 es). }
  apply (H es Manage.initial). unfold modal_ok. cbn.
  split; [discriminate|]. intros Hn. now destruct Hn.
Qed.

(** X14: View only ever asks for a conversation of the list that passes
    the filters in force: in every state the dashboard reaches, a
    request issued by View on a row is the detail request for the
    session id of a member of [conversations] that the status filter
    and the search term select. *)
Theorem view_requests_a_selected_conversation (es : list Manage.Event)
    (row : nat) :
  let st := fst (Manage.run toLowerCase Manage.initial es) in
  Forall (fun req =>
            exists conv,
              In conv (conversations st)
              /\ selectedb toLowerCase (statusFilter st) (searchTerm st) conv
                 = true
              /\ req = detailRequest (Manage.session_id conv))
         (snd (Manage.step toLowerCase st (ev_view row))).
Proof.
  intros st.
  assert (Hok : filtered_ok toLowerCase st)
    by (apply run_filtered_ok; reflexivity).
  unfold filtered_ok in Hok. rewrite applyFilters_filter in Hok. cbn.
  destruct (Manage.isLoading st && _); cbn; [constructor|].
  destruct (filteredConversations st !! row) as [conv|] eqn:E; cbn;
    [|constructor].
  constructor; [|constructor]. exists conv.
  apply list_elem_of_lookup_2 in E. rewrite Hok in E.
  apply list_elem_of_In, List.filter_In in E as [Hin Hsel]. auto.
Qed.

End DashboardState.

Section DashboardStats.

Import Manage.

Lemma refresh_replaces_or_keeps_witness :
  fetched (resolves {| Manage.resp_status := 200;
                       Manage.resp_json := resolves three_rows |}) three_rows
  /\ conversations
       (fetchConversations_settle asciiLowerCase
          (resolves {| Manage.resp_status := 200;
                       Manage.resp_json := resolves three_rows |})
          Manage.initial)
     = three_rows.
Proof.
  assert (H : fetched (resolves {| Manage.resp_status := 200;
                                   Manage.resp_json := resolves three_rows |})
                      three_rows)
    by (eexists; repeat split; reflexivity).
  split; [exact H|].
  exact (proj1 (proj1 (proj2 (refresh_replaces_or_keeps asciiLowerCase _
                                Manage.initial)) three_rows H)).
Defined.

Lemma status_not_both (conv : Conversation) :
  JS.eqb (status conv) (lit "active") = true ->
  JS.eqb (status conv) (lit "escalated") = false.
Proof.
  intros H. apply JS_eqb_eq in H. rewrite H. reflexivity.
Qed.

Lemma known_status_eqb (conv : Conversation) :
  known_status conv
  <-> JS.eqb (status conv) (lit "active") = true
      \/ JS.eqb (status conv) (lit "escalated") = true.
Proof. unfold known_status. now rewrite !JS_eqb_eq. Qed.

(** X15: the two status counters never exceed the total, and they add
    up to it exactly when every status is ['active'] or ['escalated']:
    a conversation with any other status is counted in [total] only. *)
Theorem status_counters_bound (cs : list Conversation) :
  stat_active (stats cs) + stat_escalated (stats cs) <= total (stats cs)
  /\ (stat_active (stats cs) + stat_escalated (stats cs) = total (stats cs)
      <-> Forall known_status cs).
Proof.
  cbn [stats stat_active stat_escalated total].
  induction cs as [|c cs [IHle IHeq]]; cbn [List.filter length].
  - split; [lia|]. split; [constructor|reflexivity].
  - pose proof (known_status_eqb c) as Hk.
    pose proof (status_not_both c) as Hnb.
    destruct (JS.eqb (status c) (lit "active")) eqn:Ea;
      destruct (JS.eqb (status c) (lit "escalated")) eqn:Ee;
      cbn [length].
    + specialize (Hnb eq_refl). discriminate.
    + split; [lia|]. rewrite Forall_cons. split.
      * intros H. split; [apply Hk; now left|]. apply IHeq. lia.
      * intros [_ H]. apply IHeq in H. lia.
    + split; [lia|]. rewrite Forall_cons. split.
      * intros H. split; [apply Hk; now right|]. apply IHeq. lia.
      * intros [_ H]. apply IHeq in H. lia.
    + split; [lia|]. rewrite Forall_cons. split.
      * intros H. lia.
      * intros [H _]. apply Hk in H as [H|H]; discriminate.
Qed.

(** The sum and the quotient are rounded as binary64 values: the
    average of five counts of 2^53 - 1 is 2^53 - 2. *)
Lemma average_is_taken_in_binary64 :
  avgMessages (stats five_long) = Some (Number_of_Z 9007199254740990).
Proof. vm_compute. reflexivity. Qed.

End DashboardStats.

(** * Further properties of [renderText] and [MarkdownText] *)

Section RenderTextNodes.

Import Markdown MarkdownLines.

Lemma renderLoop_step (input : jsstring) (lastIndex : nat)
    (parts : list Part) :
  renderLoop input lastIndex parts
  = match exec input lastIndex with
    | Some m =>
      renderLoop input (index m + length (whole m))
        ((if lastIndex <? index m
          then parts ++ [text (substring input lastIndex (index m))]
          else parts)
         ++ [strong (index m) (boldText m)])
    | None => (parts, lastIndex)
    end.
Proof.
  funelim (renderLoop input lastIndex parts); now rewrite e.
Qed.

Lemma bold_span_text (w g : jsstring) :
  bold_span w g -> g <> [] /\ star_free g.
Proof. now destruct 1. Qed.

Lemma substring_length (input : jsstring) (i j : nat) :
  j <= length input -> length (substring input i j) = j - i.
Proof. intros H. unfold substring. rewrite length_take, length_drop. lia. Qed.

Lemma keys_app (ps qs : list Part) : keys (ps ++ qs) = keys ps ++ keys qs.
Proof.
  induction ps as [|[s|k c] ps IH]; cbn; [reflexivity|exact IH|].
  now rewrite IH.
Qed.

(** What the loop pushes from [lastIndex] on. *)
Lemma renderLoop_pushes (input : jsstring) (lastIndex : nat)
    (parts : list Part) :
  exists pushed : list Part,
    fst (renderLoop input lastIndex parts) = parts ++ pushed
    /\ Forall (part_ok input) pushed
    /\ Forall (fun k => lastIndex <= k) (keys pushed)
    /\ StronglySorted lt (keys pushed)
    /\ (exec input lastIndex = None -> pushed = [])
    /\ (pushed = [] -> snd (renderLoop input lastIndex parts) = lastIndex).
Proof.
  funelim (renderLoop input lastIndex parts).
  - destruct H as (pushed & Hres & Hok & Hge & Hsorted & _ & Hexit).
    destruct (exec_spec _ _ _ e) as (g & _ & _ & Hb & Hg).
    destruct (exec_bounds _ _ _ e) as (Hli & Hlen & Hend).
    destruct (bold_span_text _ _ Hb) as [Hgne Hgfree].
    exists ((if lastIndex <? index m
             then [text (substring input lastIndex (index m))] else [])
            ++ strong (index m) (boldText m) :: pushed).
    assert (Hkeys : keys ((if lastIndex <? index m
                           then [text (substring input lastIndex (index m))]
                           else [])
                          ++ strong (index m) (boldText m) :: pushed)
                    = index m :: keys pushed)
      by (rewrite keys_app; now destruct (lastIndex <? index m)).
    rewrite Hkeys. repeat split.
    + rewrite Hres. destruct (lastIndex <? index m);
        now rewrite <- ?app_assoc.
    + apply Forall_app. split.
      * destruct (Nat.ltb_spec lastIndex (index m)); constructor; [|constructor].
        cbn. intros Hnil. apply (f_equal (@length _)) in Hnil.
        rewrite substring_length in Hnil by lia. cbn in Hnil. lia.
      * constructor; [|exact Hok]. cbn. split; [lia|]. now exists g.
    + constructor; [exact Hli|].
      eapply Forall_impl; [exact Hge|]. cbn. intros k Hk. lia.
    + constructor; [exact Hsorted|].
      eapply Forall_impl; [exact Hge|]. cbn. intros k Hk. lia.
    + congruence.
    + intros Hnil. now destruct (lastIndex <? index m).
  - exists []. cbn. rewrite app_nil_r. repeat split; constructor.
Qed.

(** X17: the nodes [renderText] returns are well formed: the array is
    never empty, no text node is empty, and every bold element has a
    defined, non-empty text without stars under a key that is a
    position of the input; the input itself is returned only when it is
    the empty string. *)
Theorem rendered_nodes_are_well_formed (input : jsstring) :
  match renderText input with
  | nodes parts => parts <> [] /\ Forall (part_ok input) parts
  | plain s => s = [] /\ input = []
  end.
Proof.
  unfold renderText.
  destruct (renderLoop_pushes input 0 [])
    as (pushed & Hres & Hok & _ & _ & _ & Hexit).
  destruct (renderLoop input 0 []) as [parts lastIndex].
  cbn [fst snd app] in Hres, Hexit. subst parts.
  destruct (Nat.ltb_spec lastIndex (length input)) as [Hlt|Hge].
  - rewrite length_app. cbn [length].
    replace (0 <? length pushed + 1) with true
      by (symmetry; apply Nat.ltb_lt; lia).
    split; [now destruct pushed|].
    apply Forall_app. split; [exact Hok|]. constructor; [|constructor].
    cbn. intros Hnil. apply (f_equal (@length _)) in Hnil.
    rewrite length_drop in Hnil. cbn in Hnil. lia.
  - destruct pushed as [|p ps]; cbn [length Nat.ltb Nat.leb].
    + rewrite (Hexit eq_refl) in Hge. destruct input; [now split|].
      cbn in Hge. lia.
    + split; [discriminate|exact Hok].
Qed.

(** X18: the keys of the bold elements of one call increase strictly
    from left to right, so no two of them are equal. *)
Theorem strong_keys_are_distinct (input : jsstring) (parts : list Part) :
  renderText input = nodes parts ->
  StronglySorted lt (keys parts) /\ NoDup (keys parts).
Proof.
  unfold renderText.
  destruct (renderLoop_pushes input 0 []) as (pushed & Hres & _ & _ & Hs & _).
  destruct (renderLoop input 0 []) as [ps lastIndex]. cbn [fst app] in Hres.
  subst ps. intros Hn.
  assert (Hk : keys parts = keys pushed).
  { destruct (lastIndex <? length input);
      destruct (0 <? length _); try discriminate; injection Hn as <-;
      [rewrite keys_app; cbn; apply app_nil_r|reflexivity]. }
  rewrite Hk. split; [exact Hs|].
  clear -Hs. induction Hs as [|k ks _ IH Hall]; constructor; [|exact IH].
  intros Hin. rewrite Forall_forall in Hall. apply Hall in Hin. lia.
Qed.

Lemma strong_keys_are_distinct_witness :
  renderText (lit "a **b** c *d* e")
  = nodes [text (lit "a "); strong 2 (Some (lit "b")); text (lit " c ");
           strong 10 (Some (lit "d")); text (lit " e")]
  /\ NoDup [2; 10].
Proof.
  assert (H : renderText (lit "a **b** c *d* e")
              = nodes [text (lit "a "); strong 2 (Some (lit "b"));
                       text (lit " c "); strong 10 (Some (lit "d"));
                       text (lit " e")]) by reflexivity.
  split; [exact H|].
  exact (proj2 (strong_keys_are_distinct _ _ H)).
Defined.

End RenderTextNodes.

Section MarkdownBlocks.

Import Markdown MarkdownLines.

Lemma bold_span_two_stars (w g : jsstring) :
  bold_span w g -> 2 <= length (List.filter isStar w).
Proof.
  unfold is_star.
  destruct 1 as [c1 c2 d1 d2 g H1 H2 H3 H4 _ _ | c1 d1 g H1 H3 _ _]; cbn;
    rewrite H1, ?H2; cbn; rewrite ?List.filter_app, ?length_app; cbn;
    rewrite H3, ?H4; cbn; lia.
Qed.

(** X19: a star without a partner is shown as typed: on an input with
    at most one star [renderText] finds no bold span and the text shown
    is the input. *)
Theorem lone_star_is_literal (input : jsstring) :
  length (List.filter isStar input) <= 1 ->
  rendered_text (renderText input) = input.
Proof.
  intros Hone.
  assert (Hnone : exec input 0 = None).
  { destruct (exec input 0) as [m|] eqn:E; [|reflexivity].
    destruct (exec_spec _ _ _ E) as (g & Hdrop & _ & Hb & _).
    apply bold_span_two_stars in Hb.
    change (drop 0 input) with input in Hdrop.
    apply (f_equal (fun s => length (List.filter isStar s))) in Hdrop.
    rewrite !List.filter_app, !length_app in Hdrop. lia. }
  unfold renderText. rewrite renderLoop_no_match by exact Hnone.
  destruct input; cbn; [reflexivity|]. now rewrite app_nil_r.
Qed.

Lemma lone_star_is_literal_witness :
  length (List.filter isStar (lit "2 * 3 = 6")) <= 1
  /\ rendered_text (renderText (lit "2 * 3 = 6")) = lit "2 * 3 = 6".
Proof.
  assert (H : length (List.filter isStar (lit "2 * 3 = 6")) <= 1)
    by (vm_compute; lia).
  split; [exact H|]. exact (lone_star_is_literal _ H).
Defined.

Lemma split_lines_nonempty (text : jsstring) : split_lines text <> [].
Proof.
  destruct text as [|c t]; cbn; [discriminate|].
  destruct (c =? 10)%N; [discriminate|]. destruct (split_lines t); discriminate.
Qed.

Lemma split_lines_spec (text : jsstring) :
  length (split_lines text) = S (length (List.filter is_newline text))
  /\ join_lines (split_lines text) = text
  /\ Forall (Forall (fun c => is_newline c = false)) (split_lines text).
Proof.
  induction text as [|c t (IHlen & IHjoin & IHall)]; cbn [split_lines].
  - repeat split. repeat constructor.
  - pose proof (split_lines_nonempty t) as Hne. cbn [List.filter].
    unfold is_newline at 1 3. destruct (c =? 10)%N eqn:Ec.
    + apply N.eqb_eq in Ec. subst c. cbn [length]. split; [now rewrite IHlen|].
      split; [|now constructor].
      cbn [join_lines]. destruct (split_lines t); [now destruct Hne|].
      cbn. now rewrite <- IHjoin.
    + destruct (split_lines t) as [|line lines]; [now destruct Hne|].
      split; [exact IHlen|]. split.
      * destruct lines; cbn in *; now rewrite <- IHjoin.
      * apply Forall_cons_1 in IHall as [Hl Hls].
        constructor; [|exact Hls]. now constructor.
Qed.

(** X20: [MarkdownText] renders one block per line of the text: their
    number is one more than the number of newline characters, the lines
    contain no newline, and joined by newlines they are the text. *)
Theorem one_block_per_line (text : jsstring) :
  length (MarkdownText text) = S (length (List.filter is_newline text))
  /\ join_lines (split_lines text) = text
  /\ Forall (Forall (fun c => is_newline c = false)) (split_lines text).
Proof.
  unfold MarkdownText. rewrite length_map. apply split_lines_spec.
Qed.

Lemma trimStart_app_last (a : jsstring) (c : char16) :
  isWhiteSpace c = false -> trimStart (a ++ [c]) = trimStart a ++ [c].
Proof.
  intros Hc. induction a as [|x a IH]; cbn; [now rewrite Hc|].
  now destruct (isWhiteSpace x).
Qed.

Lemma trimEnd_cons (c : char16) (rest : jsstring) :
  isWhiteSpace c = false -> trimEnd (c :: rest) = c :: trimEnd rest.
Proof.
  intros Hc. unfold trimEnd. cbn [rev].
  rewrite trimStart_app_last by exact Hc. now rewrite rev_app_distr.
Qed.

Lemma trimStart_white (ws s : jsstring) :
  white ws -> trimStart (ws ++ s) = trimStart s.
Proof.
  unfold white. induction 1 as [|c ws Hc _ IH]; cbn; [reflexivity|].
  now rewrite Hc.
Qed.

Lemma trimStart_head (s : jsstring) :
  starts_outside isWhiteSpace s -> trimStart s = s.
Proof. destruct s as [|c s]; cbn; [reflexivity|]. now intros ->. Qed.

Lemma trimStart_starts_outside (s : jsstring) :
  starts_outside isWhiteSpace (trimStart s).
Proof.
  destruct (trimStart_split s) as (ws & _ & _ & H).
  unfold starts_outside. now destruct (trimStart s).
Qed.

(** The test of the bullet branch reads the first character of the line
    that is not white space. *)
Lemma bullet_test (line : jsstring) :
  startsWith (trim line) (lit "*") || startsWith (trim line) (lit "-")
  = match trimStart line with
    | c :: _ => isMarker c
    | [] => false
    end.
Proof.
  unfold trim. pose proof (trimStart_starts_outside line) as Hh.
  destruct (trimStart line) as [|c rest]; [reflexivity|].
  cbn in Hh. rewrite trimEnd_cons by exact Hh.
  change (lit "*") with [42%N]. change (lit "-") with [45%N].
  assert (Hnil : forall s, startsWith s [] = true) by (intros []; reflexivity).
  cbn [startsWith]. rewrite !Hnil. unfold isMarker. now rewrite !andb_true_r.
Qed.

Lemma isMarker_not_white (c : char16) :
  isMarker c = true -> isWhiteSpace c = false.
Proof.
  unfold isMarker. rewrite orb_true_iff, !N.eqb_eq. now intros [->| ->].
Qed.

(** X21: a line is rendered as a bullet exactly when its first
    character that is not white space is a star or a dash; the bullet
    then shows the line without its leading white space, that marker
    and the white space after it, and nothing else is removed. *)
Theorem bullet_lines (line : jsstring) :
  ((exists r, renderLine line = bullet r)
   <-> exists ws c rest,
         line = ws ++ c :: rest /\ white ws /\ isMarker c = true)
  /\ (forall ws c rest,
        line = ws ++ c :: rest -> white ws -> isMarker c = true ->
        exists ws' body,
          rest = ws' ++ body /\ white ws'
          /\ starts_outside isWhiteSpace body
          /\ renderLine line = bullet (renderText body)).
Proof.
  assert (Hfwd : forall ws c rest,
            line = ws ++ c :: rest -> white ws -> isMarker c = true ->
            exists ws' body,
              rest = ws' ++ body /\ white ws'
              /\ starts_outside isWhiteSpace body
              /\ renderLine line = bullet (renderText body)).
  { intros ws c rest -> Hws Hc.
    pose proof (isMarker_not_white c Hc) as Hnw.
    assert (Ht : trimStart (ws ++ c :: rest) = c :: rest)
      by (rewrite trimStart_white by exact Hws; cbn; now rewrite Hnw).
    destruct (trimStart_split rest) as (ws' & Hrest & Hws' & _).
    exists ws', (trimStart rest). split; [exact Hrest|]. split; [exact Hws'|].
    split; [apply trimStart_starts_outside|].
    unfold renderLine, replace_bullet. now rewrite bullet_test, Ht, Hc. }
  split; [|exact Hfwd]. split.
  - intros [r Hr]. unfold renderLine in Hr. rewrite bullet_test in Hr.
    destruct (trimStart_split line) as (ws & Hline & Hws & _).
    destruct (trimStart line) as [|c rest].
    + destruct (numberedMatch line) as [[label body]|]; [discriminate|].
      destruct (truthy (trim line)); discriminate.
    + destruct (isMarker c) eqn:Hc.
      * now exists ws, c, rest.
      * destruct (numberedMatch line) as [[label body]|]; [discriminate|].
        destruct (truthy (trim line)); discriminate.
  - intros (ws & c & rest & Hline & Hws & Hc).
    destruct (Hfwd ws c rest Hline Hws Hc) as (ws' & body & _ & _ & _ & Hr).
    eauto.
Qed.

Lemma bullet_lines_witness :
  lit "  - item" = lit "  " ++ 45%N :: lit " item"
  /\ white (lit "  ") /\ isMarker 45%N = true
  /\ exists ws' body,
       lit " item" = ws' ++ body
       /\ renderLine (lit "  - item") = bullet (renderText body).
Proof.
  assert (Hw : white (lit "  ")) by (repeat constructor).
  split; [reflexivity|]. split; [exact Hw|]. split; [reflexivity|].
  destruct (proj2 (bullet_lines (lit "  - item")) (lit "  ") 45%N (lit " item")
              eq_refl Hw eq_refl) as (ws' & body & Hrest & _ & _ & Hr).
  exists ws', body. split; [exact Hrest|exact Hr].
Defined.

Lemma search_here (i : nat) (s : jsstring) (m : Match) :
  match_here i s = Some m -> search i s = Some m.
Proof. intros H. destruct s; cbn [search]; now rewrite H. Qed.

Lemma renderText_single_bold (g : jsstring) :
  g <> [] -> star_free g ->
  renderText (42%N :: g ++ [42%N; 42%N])
  = nodes [strong 0 (Some g); text [42%N]].
Proof.
  intros Hne Hfree.
  assert (Hb : bold_span (42%N :: g ++ [42%N]) g)
    by (apply bold_single; auto; reflexivity).
  destruct (match_here_complete 0 _ g [42%N] Hb) as (m & Hm & Hw & Hbold).
  assert (Hindex : index m = 0) by now apply match_here_spec in Hm as [? _].
  remember (42%N :: g ++ [42%N; 42%N]) as input eqn:Ein.
  assert (Hinput : input = whole m ++ [42%N])
    by (rewrite Hw; subst input; cbn; now rewrite <- app_assoc).
  assert (Hfirst : exec input 0 = Some m).
  { unfold exec. rewrite drop_0.
    match goal with
    | |- context [?a <? 0] => destruct (Nat.ltb_spec a 0) as [Hlt|_]; [lia|]
    end.
    apply search_here. now rewrite Hinput, Hw. }
  assert (Hsecond : exec input (length (whole m)) = None).
  { unfold exec. rewrite Hinput, length_app.
    match goal with
    | |- context [?a <? ?b] => destruct (Nat.ltb_spec a b) as [Hlt|_]; [lia|]
    end.
    rewrite drop_app_length. reflexivity. }
  assert (Hloop : renderLoop input 0 []
                  = ([strong 0 (Some g)], length (whole m))).
  { rewrite renderLoop_step. rewrite Hfirst. rewrite Hindex, Hbold.
    cbn [Nat.add Nat.ltb Nat.leb app].
    now rewrite renderLoop_no_match by exact Hsecond. }
  unfold renderText. rewrite Hloop.
  rewrite Hinput, drop_app_length, length_app.
  match goal with
  | |- context [?a <? ?b] =>
      destruct (Nat.ltb_spec a b) as [_|Hge]; [|cbn in Hge; lia]
  end.
  reflexivity.
Qed.

(** X22: a line that begins with the bold marker is taken for a bullet
    and loses one star: a line starting with two stars is rendered as
    the bullet of the same line without its first star, so a line that
    is one bold span, two stars around a text, shows that text in bold
    followed by a star. *)
Theorem bold_line_start_is_a_bullet :
  (forall rest : jsstring,
     renderLine (42%N :: 42%N :: rest)
     = bullet (renderText (42%N :: rest)))
  /\ (forall g : jsstring,
        g <> [] -> star_free g ->
        renderLine (lit "**" ++ g ++ lit "**")
        = bullet (nodes [strong 0 (Some g); text (lit "*")])).
Proof.
  assert (H : forall rest : jsstring,
            renderLine (42%N :: 42%N :: rest)
            = bullet (renderText (42%N :: rest))).
  { intros rest. unfold renderLine, replace_bullet. rewrite bullet_test.
    reflexivity. }
  split; [exact H|]. intros g Hne Hfree.
  change (lit "**") with [42%N; 42%N]. cbn [app]. rewrite H.
  now rewrite renderText_single_bold.
Qed.

Lemma bold_line_start_is_a_bullet_witness :
  lit "Title" <> [] /\ star_free (lit "Title")
  /\ renderLine (lit "**Title**")
     = bullet (nodes [strong 0 (Some (lit "Title")); text (lit "*")]).
Proof.
  assert (Hne : lit "Title" <> []) by discriminate.
  assert (Hfree : star_free (lit "Title")) by (repeat constructor).
  split; [exact Hne|]. split; [exact Hfree|].
  exact (proj2 bold_line_start_is_a_bullet (lit "Title") Hne Hfree).
Defined.

Lemma span_spec (p : char16 -> bool) (s : jsstring) :
  s = fst (span p s) ++ snd (span p s)
  /\ Forall (fun c => p c = true) (fst (span p s))
  /\ starts_outside p (snd (span p s)).
Proof.
  induction s as [|c s (IHs & IHrun & IHrest)]; cbn.
  - repeat split. constructor.
  - destruct (p c) eqn:Ec.
    + destruct (span p s) as [run rest]. cbn in *. split; [now rewrite <- IHs|].
      split; [now constructor|exact IHrest].
    + cbn. repeat split; [constructor|exact Ec].
Qed.

Lemma isDigit_not_marker (c : char16) : isDigit c = true -> isMarker c = false.
Proof.
  unfold isDigit, isMarker. intros H.
  apply andb_true_iff in H as [H1 H2]. apply N.leb_le in H1, H2.
  apply orb_false_iff. split; apply N.eqb_neq; lia.
Qed.

Lemma isDigit_not_white (c : char16) :
  isDigit c = true -> isWhiteSpace c = false.
Proof.
  unfold isDigit, isWhiteSpace. intros H.
  apply andb_true_iff in H as [H1 H2]. apply N.leb_le in H1, H2.
  repeat (apply orb_false_iff; split);
    try (apply N.eqb_neq; lia);
    apply andb_false_iff; [right|left]; apply N.leb_gt; lia.
Qed.

(** The shape of a line the numbered-list pattern matches. *)
Lemma numberedMatch_shape (line label body : jsstring) :
  numberedMatch line = Some (label, body) ->
  label <> [] /\ Forall (fun c => isDigit c = true) label
  /\ Forall (fun c => isLineTerminator c = false) body
  /\ starts_outside isWhiteSpace body
  /\ exists ws1 ws2 dropped,
       line = ws1 ++ label ++ [46%N] ++ ws2 ++ body ++ dropped
       /\ white ws1 /\ white ws2
       /\ starts_outside (fun c => negb (isLineTerminator c)) dropped.
Proof.
  intros Hm. unfold numberedMatch in Hm.
  destruct (trimStart_split line) as (ws1 & Hline & Hws1 & _).
  destruct (span_spec isDigit (trimStart line)) as (Hs & Hdigits & _).
  destruct (span isDigit (trimStart line)) as [digits rest]. cbn [fst snd] in *.
  destruct rest as [|c rest']; [discriminate|].
  destruct (truthy digits) eqn:Hd; [|discriminate].
  destruct (c =? 46)%N eqn:Hc; [|discriminate]. cbn [andb] in Hm.
  apply N.eqb_eq in Hc. subst c. injection Hm as <- <-.
  destruct (trimStart_split rest') as (ws2 & Hrest & Hws2 & _).
  pose proof (trimStart_starts_outside rest') as Hout.
  destruct (span_spec (fun c => negb (isLineTerminator c)) (trimStart rest'))
    as (Hb & Hbody & Hdropped).
  destruct (span _ (trimStart rest')) as [body dropped]. cbn [fst snd] in *.
  split; [now apply truthy_nonempty|]. split; [exact Hdigits|]. split.
  - eapply Forall_impl; [exact Hbody|]. cbn. intros c Hc.
    now apply negb_true_iff.
  - split.
    + rewrite Hb in Hout. destruct body; [exact I|exact Hout].
    + exists ws1, ws2, dropped. split; [|now split].
      etransitivity; [exact Hline|]. rewrite Hs.
      etransitivity; [apply f_equal, f_equal, f_equal, Hrest|].
      now rewrite Hb.
Qed.

(** X23: a line whose first characters after white space are digits and
    a dot is rendered as a numbered item: the label is that non-empty
    run of digits, and the text is what follows the dot and the white
    space after it, up to the first line terminator; of the rest of the
    line nothing is shown. *)
Theorem numbered_lines (line label body : jsstring) :
  numberedMatch line = Some (label, body) ->
  renderLine line = numbered label (renderText body)
  /\ label <> [] /\ Forall (fun c => isDigit c = true) label
  /\ Forall (fun c => isLineTerminator c = false) body
  /\ starts_outside isWhiteSpace body
  /\ exists ws1 ws2 dropped,
       line = ws1 ++ label ++ [46%N] ++ ws2 ++ body ++ dropped
       /\ white ws1 /\ white ws2
       /\ starts_outside (fun c => negb (isLineTerminator c)) dropped.
Proof.
  intros Hm. pose proof (numberedMatch_shape _ _ _ Hm) as Hshape.
  split; [|exact Hshape].
  destruct Hshape
    as (Hne & Hdigits & _ & _ & ws1 & ws2 & dropped & Hline & Hws1 & _).
  destruct label as [|d ds]; [now destruct Hne|].
  apply Forall_cons_1 in Hdigits as [Hd _].
  assert (Hhead : trimStart line = d :: ds ++ [46%N] ++ ws2 ++ body ++ dropped).
  { rewrite Hline, trimStart_white by exact Hws1. cbn [app trimStart].
    now rewrite (isDigit_not_white d Hd). }
  unfold renderLine. rewrite bullet_test, Hhead, Hm.
  now rewrite (isDigit_not_marker d Hd).
Qed.

Lemma numbered_lines_witness :
  numberedMatch (lit " 12.  second") = Some (lit "12", lit "second")
  /\ renderLine (lit " 12.  second")
     = numbered (lit "12") (renderText (lit "second")).
Proof.
  assert (H : numberedMatch (lit " 12.  second")
              = Some (lit "12", lit "second")) by reflexivity.
  split; [exact H|]. exact (proj1 (numbered_lines _ _ _ H)).
Defined.

(** X24: a line is rendered as the empty spacer exactly when it is
    empty or consists of white space only. *)
Theorem blank_line_is_a_spacer (line : jsstring) :
  renderLine line = spacer <-> white line.
Proof.
  split.
  - unfold renderLine.
    destruct (startsWith _ _ || startsWith _ _); [discriminate|].
    destruct (numberedMatch line) as [[label body]|]; [discriminate|].
    destruct (truthy (trim line)) eqn:Ht; [discriminate|]. intros _.
    destruct (trim_split line) as (ws1 & ws2 & Hline & H1 & H2 & _).
    destruct (trim line); [|discriminate]. rewrite Hline.
    unfold white in *. apply Forall_app. now split.
  - intros Hw. unfold renderLine, numberedMatch.
    rewrite bullet_test, (trim_whitespace line Hw),
      (trimStart_whitespace line Hw).
    reflexivity.
Qed.

Lemma trimStart_sublist (s : jsstring) : trimStart s `sublist_of` s.
Proof.
  destruct (trimStart_split s) as (ws & Hs & _). rewrite Hs at 2.
  now apply sublist_inserts_l.
Qed.

Lemma renderText_sublist (s : jsstring) :
  rendered_text (renderText s) `sublist_of` s.
Proof. apply strips_sublist, renderText_strips. Qed.

Lemma replace_bullet_sublist (line : jsstring) :
  replace_bullet line `sublist_of` line.
Proof.
  unfold replace_bullet. pose proof (trimStart_sublist line) as H.
  destruct (trimStart line) as [|c rest]; [reflexivity|].
  destruct (isMarker c); [|reflexivity].
  transitivity (c :: rest); [|exact H].
  apply sublist_cons. apply trimStart_sublist.
Qed.

(** What a block shows after its sign comes from its line. *)
Lemma renderLine_sublist (sign line : jsstring) :
  exists shown : jsstring,
    block_text sign (renderLine line)
    = block_sign sign (renderLine line) ++ shown
    /\ shown `sublist_of` line.
Proof.
  unfold renderLine.
  destruct (startsWith _ _ || startsWith _ _).
  - eexists. split; [reflexivity|].
    transitivity (replace_bullet line);
      [apply renderText_sublist|apply replace_bullet_sublist].
  - destruct (numberedMatch line) as [[label body]|] eqn:E.
    + destruct (numberedMatch_shape _ _ _ E)
        as (_ & _ & _ & _ & ws1 & ws2 & dropped & Hline & _).
      eexists. split; [reflexivity|].
      change (lit ".") with [46%N]. rewrite Hline.
      apply sublist_inserts_l. apply sublist_app; [reflexivity|].
      apply sublist_app; [reflexivity|]. apply sublist_inserts_l.
      apply sublist_inserts_r. apply renderText_sublist.
    + destruct (truthy (trim line)); eexists; (split; [reflexivity|]);
        [apply renderText_sublist|apply sublist_nil_l].
Qed.

Lemma concat_join_sublist (lines : list jsstring) :
  concat lines `sublist_of` join_lines lines.
Proof.
  induction lines as [|line [|next rest] IH]; cbn [concat join_lines].
  - reflexivity.
  - now rewrite app_nil_r.
  - apply sublist_app; [reflexivity|]. now apply sublist_inserts_l.
Qed.

(** X25: apart from the bullet sign that a bullet puts before its text,
    [MarkdownText] shows nothing that is not in the text: what the
    blocks show is, block by block, the sign of the block (the bullet
    sign for a bullet, nothing otherwise) followed by a piece of text,
    and the pieces, read in order (labels of numbered items with their
    dot included), form a subsequence of the text. *)
Theorem markdown_shows_only_the_text (sign text : jsstring) :
  exists pieces : list jsstring,
    length pieces = length (MarkdownText text)
    /\ List.map (block_text sign) (MarkdownText text)
       = signed_pieces sign (MarkdownText text) pieces
    /\ concat pieces `sublist_of` text.
Proof.
  unfold MarkdownText.
  destruct (split_lines_spec text) as (_ & Hjoin & _).
  assert (H : exists pieces : list jsstring,
            length pieces = length (List.map renderLine (split_lines text))
            /\ List.map (block_text sign) (List.map renderLine (split_lines text))
               = signed_pieces sign (List.map renderLine (split_lines text))
                               pieces
            /\ concat pieces `sublist_of` concat (split_lines text)).
  { clear Hjoin. induction (split_lines text) as [|line lines IH].
    - exists []. repeat split. reflexivity.
    - destruct IH as (pieces & Hlen & Hmap & Hsub).
      destruct (renderLine_sublist sign line) as (shown & Hshown & Hline).
      exists (shown :: pieces). cbn [List.map length signed_pieces concat].
      split; [now rewrite Hlen|]. split; [now rewrite Hshown, Hmap|].
      now apply sublist_app. }
  destruct H as (pieces & Hlen & Hmap & Hsub).
  exists pieces. split; [exact Hlen|]. split; [exact Hmap|].
  rewrite <- Hjoin. transitivity (concat (split_lines text));
    [exact Hsub|apply concat_join_sublist].
Qed.

End MarkdownBlocks.
